(** * Registro-cavalos: the pedigree front end of [src/App.jsx]

    A shallow embedding of the ancestry materialisation
    ([buildD3AncestryData]), of the registration path ([HorseForm.handleSubmit],
    [capitalizeEachWord], [addHorse]) and of the share link and its parsing at
    start-up, with the properties the specification states about them. *)

From Equations Require Import Equations.
From Stdlib Require Import String Ascii ZArith NArith List Bool Lia DecimalString.
From Stdlib Require Import Permutation.
Import ListNotations.
Local Open Scope string_scope.
Local Open Scope list_scope.
Local Open Scope Z_scope.
Set Warnings "-register-all".

(** ** JavaScript values used as identifiers

    A record of table [cavalos] carries an [id] and two parent references.
    The store hands them over as numbers or as strings, and a missing
    reference as [null]. Numeric identifiers are integers. *)

Inductive JsVal : Type :=
| JNull
| JNum (z : Z)
| JStr (s : string).

(** [ToBoolean]: what [v ? a : b] and [if (v)] test. *)
Definition truthy (v : JsVal) : bool :=
  match v with
  | JNull => false
  | JNum z => negb (Z.eqb z 0)
  | JStr s => negb (String.eqb s EmptyString)
  end.

(** Strict equality [a === b]: no conversion between types. *)
Definition strict_eq (a b : JsVal) : bool :=
  match a, b with
  | JNull, JNull => true
  | JNum x, JNum y => Z.eqb x y
  | JStr s, JStr t => String.eqb s t
  | _, _ => false
  end.

(** Text shown to the user and typed in the form is a sequence of Unicode
    code points, which is how the [u] flag of the regular expression of
    [capitalizeEachWord] reads it. Identifiers, URLs and messages are byte
    strings (UTF-8). *)
Definition ustring : Type := list N.

(** ** Horse records and tree nodes *)

(** A row of [cavalos], with the column names of the [select] of
    [fetchHorses]. *)
Record Horse : Type := mkHorse {
  id : JsVal;
  nome : ustring;
  raca : ustring;
  idade : option Z;
  sexo : ustring;
  url_imagem : option string;
  pai_id : JsVal;
  mae_id : JsVal
}.

(** The object literal [node] of [buildD3AncestryData]. *)
Inductive TreeNode : Type :=
  mkTreeNode {
    node_id : JsVal;
    node_name : ustring;
    node_breed : ustring;
    node_age : option Z;
    node_sex : ustring;
    node_photoUrl : option string;
    children : list TreeNode
  }.

(** [allHorses.find(h => h.id === key)] *)
Definition findById (allHorses : list Horse) (key : JsVal) : option Horse :=
  find (fun h => strict_eq (id h) key) allHorses.

(** [ref ? allHorses.find(h => h.id === ref) : null], the right-hand side of
    [const father = ...] and [const mother = ...]. *)
Definition lookupParent (allHorses : list Horse) (ref : JsVal) : option Horse :=
  if truthy ref then findById allHorses ref else None.

(** [children.filter(child => child !== null)] *)
Definition dropNull {A : Type} (l : list (option A)) : list A :=
  flat_map (fun c => match c with Some x => [x] | None => [] end) l.

(** [buildD3AncestryData(horse, allHorses, maxDepth, currentDepth = 0)].
    [None] is the [null] result. The two [push] calls are the two singleton
    lists, in program order; the recursion is on [maxDepth - currentDepth]. *)
Equations? buildD3AncestryData (horse : option Horse) (allHorses : list Horse)
    (maxDepth currentDepth : Z) : option TreeNode
    by wf (Z.to_nat (maxDepth - currentDepth)) lt :=
  buildD3AncestryData None _ _ _ := None;
  buildD3AncestryData (Some h) allHorses maxDepth currentDepth
    with Z_ge_dec currentDepth maxDepth := {
    | left _ => None
    | right _ with Z_lt_dec currentDepth (maxDepth - 1) := {
      | left _ =>
          let father := lookupParent allHorses (pai_id h) in
          let mother := lookupParent allHorses (mae_id h) in
          Some (mkTreeNode (id h) (nome h) (raca h) (idade h) (sexo h)
                  (url_imagem h)
                  (dropNull
                     ((match father with
                       | Some f => [buildD3AncestryData (Some f) allHorses
                                      maxDepth (currentDepth + 1)]
                       | None => []
                       end) ++
                      (match mother with
                       | Some m => [buildD3AncestryData (Some m) allHorses
                                      maxDepth (currentDepth + 1)]
                       | None => []
                       end))))
      | right _ =>
          Some (mkTreeNode (id h) (nome h) (raca h) (idade h) (sexo h)
                  (url_imagem h) [])
      }
    }.
Proof. all: lia. Qed.

(** ** Measures on trees and on the parent graph *)

(** Number of nodes on the longest path from the root to a leaf (the number
    of generations drawn). *)
Fixpoint height (t : TreeNode) : nat :=
  match t with
  | mkTreeNode _ _ _ _ _ _ cs => S (list_max (map height cs))
  end.

(** Number of nodes. *)
Fixpoint size (t : TreeNode) : nat :=
  match t with
  | mkTreeNode _ _ _ _ _ _ cs => S (list_sum (map size cs))
  end.


(** [FirstWithId all ref h]: [h] is what a linear look-up of [ref] by id
    equality gives in the collection: the first record whose [id] is [ref].
    It is read off the collection alone. *)
Definition FirstWithId (allHorses : list Horse) (ref : JsVal) (h : Horse) : Prop :=
  exists before after,
    allHorses = before ++ h :: after
    /\ id h = ref
    /\ forall x, In x before -> id x <> ref.


(** [AncestorChain present all h l]: [l] is a chain of ancestors available
    in the collection: it starts at [h], and each next horse is the record
    that the father or the mother reference of the one before, when
    [present] holds of it, is the id of. A cyclic collection has chains of
    every length. With [isRegistered] a reference counts unless it is
    [null]; with [truthy], unless it is [null], 0 or the empty string. *)
Inductive AncestorChain (present : JsVal -> bool) (allHorses : list Horse)
  : Horse -> list Horse -> Prop :=
| chain_root : forall h, AncestorChain present allHorses h [h]
| chain_father : forall h f l,
    present (pai_id h) = true ->
    FirstWithId allHorses (pai_id h) f ->
    AncestorChain present allHorses f l ->
    AncestorChain present allHorses h (h :: l)
| chain_mother : forall h m l,
    present (mae_id h) = true ->
    FirstWithId allHorses (mae_id h) m ->
    AncestorChain present allHorses m l ->
    AncestorChain present allHorses h (h :: l).

(** The parents the collection gives for [h], father first. *)
Definition parentsOf (allHorses : list Horse) (h : Horse) : list Horse :=
  (match lookupParent allHorses (pai_id h) with Some f => [f] | None => [] end)
  ++ (match lookupParent allHorses (mae_id h) with Some m => [m] | None => [] end).

(** [generations all n h]: the pedigree of [h] over [n] further generations,
    by recursion on [n]. [buildD3AncestryData] is shown below to compute it
    with [n = maxDepth - currentDepth - 1]. *)
Fixpoint generations (allHorses : list Horse) (n : nat) (h : Horse) : TreeNode :=
  mkTreeNode (id h) (nome h) (raca h) (idade h) (sexo h) (url_imagem h)
    (match n with
     | O => []
     | S n' => map (generations allHorses n') (parentsOf allHorses h)
     end).

(** ** Sample collections *)

(** Code points of a literal of ASCII characters. *)
Definition utext (s : string) : ustring :=
  map N_of_ascii (list_ascii_of_string s).

(** The collection of the scenario of the specification: C, by A out of B. *)
Definition horseA : Horse :=
  mkHorse (JNum 1) (utext "A") (utext "Crioulo") (Some 12) (utext "Macho") None JNull JNull.
Definition horseB : Horse :=
  mkHorse (JNum 2) (utext "B") (utext "Crioulo") (Some 10) (utext "Femea") None JNull JNull.
Definition horseC : Horse :=
  mkHorse (JNum 3) (utext "C") (utext "Crioulo") (Some 3) (utext "Macho") None (JNum 1) (JNum 2).
Definition scenarioHorses : list Horse := [horseA; horseB; horseC].

(** A collection whose parent references form a cycle: the sire of the root
    is out of the dam, and the dam is by the sire. *)
Definition cycRoot : Horse :=
  mkHorse (JStr "r") (utext "Root") [] None (utext "Macho") None (JStr "s") (JStr "d").
Definition cycSire : Horse :=
  mkHorse (JStr "s") (utext "Sire") [] None (utext "Macho") None JNull (JStr "d").
Definition cycDam : Horse :=
  mkHorse (JStr "d") (utext "Dam") [] None (utext "Femea") None (JStr "s") JNull.
Definition cyclicHorses : list Horse := [cycRoot; cycSire; cycDam].

(** A horse whose father reference points to no record. *)
Definition orphanRef : Horse :=
  mkHorse (JNum 7) (utext "G") [] None (utext "Macho") None (JNum 99) (JNum 2).

(** A record whose id is the number 0, and a foal that refers to it. *)
Definition horseZero : Horse :=
  mkHorse (JNum 0) (utext "Z") [] None (utext "Macho") None JNull JNull.
Definition foalOfZero : Horse :=
  mkHorse (JNum 8) (utext "F") [] None (utext "Macho") None (JNum 0) JNull.

(** ** Text: code points, character classes and case mapping

    The tables below are those of Unicode for Basic Latin and the Latin-1
    Supplement (U+0000 to U+00FF), closed under the case mappings of these
    characters (U+0178, U+039C and U+03BC are their only images outside the
    range). Portuguese text lies within them. Other scripts are outside the
    tables: a letter of another script is no letter here and has no case.
    They serve to evaluate the code on text of the range; what holds of
    every text is stated over any tables ([CaseTables] below). *)

Definition inRange (lo hi c : N) : bool := ((lo <=? c) && (c <=? hi))%N.

(** The class [\s] of a regular expression. *)
Definition whiteSpaceCodePoints : list N :=
  [9; 10; 11; 12; 13; 32; 160; 5760; 8192; 8193; 8194; 8195; 8196; 8197; 8198;
   8199; 8200; 8201; 8202; 8232; 8233; 8239; 8287; 12288; 65279]%N.

Definition isWhiteSpace (c : N) : bool := existsb (N.eqb c) whiteSpaceCodePoints.

(** The characters that the alternatives [\s], [\/], [-], ['] and the double
    quote of the pattern match. *)
Definition boundaryCodePoints : list N :=
  whiteSpaceCodePoints ++ [47; 45; 39; 34]%N.

Definition isBoundary (c : N) : bool := existsb (N.eqb c) boundaryCodePoints.

(** The class [\p{L}] (letters). *)
Definition isLetter (c : N) : bool :=
  (inRange 65 90 c || inRange 97 122 c
   || (c =? 170) || (c =? 181) || (c =? 186)
   || inRange 192 214 c || inRange 216 246 c || inRange 248 255 c
   || (c =? 376) || (c =? 924) || (c =? 956))%N.

(** Lower-case mapping of one code point. *)
Definition toLowerCodePoint (c : N) : N :=
  (if inRange 65 90 c then c + 32
   else if inRange 192 214 c || inRange 216 222 c then c + 32
   else if c =? 376 then 255
   else if c =? 924 then 956
   else c)%N.

(** Upper-case mapping of one code point; the sharp s (U+00DF) maps to two
    letters. *)
Definition toUpperCodePoint (c : N) : list N :=
  (if inRange 97 122 c then [c - 32]
   else if inRange 224 246 c || inRange 248 254 c then [c - 32]
   else if c =? 223 then [83; 83]
   else if c =? 255 then [376]
   else if (c =? 181) || (c =? 956) then [924]
   else [c])%N.

(** [str.toLowerCase()] and [str.toUpperCase()] *)
Definition toLowerCase (s : ustring) : ustring := map toLowerCodePoint s.
Definition toUpperCase (s : ustring) : ustring := flat_map toUpperCodePoint s.

(** [str.replace(re, (match) => match.toUpperCase())], where [re] is the
    pattern of [capitalizeEachWord], with flags [gu]: a group that is the
    start of the string [^] or one boundary character, followed by one
    letter [\p{L}]. The string is read from left to right. At each position
    the alternatives are tried in order, [^] first (it holds at the start of
    the string only), then a boundary character; the letter that follows is
    part of the match. A match is replaced by its upper case and the scan
    resumes after it; where there is no match the character is copied. *)
Fixpoint replaceMatches (atStart : bool) (s : ustring) : ustring :=
  match s with
  | [] => []
  | c :: rest =>
      if atStart && isLetter c then
        toUpperCase [c] ++ replaceMatches false rest
      else if isBoundary c then
        match rest with
        | l :: rest' =>
            if isLetter l then toUpperCase [c; l] ++ replaceMatches false rest'
            else c :: replaceMatches false rest
        | [] => [c]
        end
      else c :: replaceMatches false rest
  end.

(** [capitalizeEachWord] of [HorseForm]. [!str] holds of the empty string. *)
Definition capitalizeEachWord (str : ustring) : ustring :=
  match str with
  | [] => []
  | _ => replaceMatches true (toLowerCase str)
  end.

(** The normalisation in the words of the specification: the text is cut
    into segments by the boundary characters (white space, [/], [-], ['] and
    the double quote), and the first character of each segment, when it is a
    letter, is capitalised; nothing else changes. [segmentStart] tells whether
    the next character starts a segment. *)
Fixpoint spec_capitalizeSegments (segmentStart : bool) (s : ustring) : ustring :=
  match s with
  | [] => []
  | c :: rest =>
      (if segmentStart && isLetter c then toUpperCodePoint c else [c])
      ++ spec_capitalizeSegments (isBoundary c) rest
  end.

Definition spec_normalize (s : ustring) : ustring :=
  spec_capitalizeSegments true s.

(** [stableCodePoint l]: putting [l] in lower case leaves it as it is and,
    when [l] is a letter, its upper case is a single letter whose lower case
    is a letter with the same upper case. *)
Definition stableCodePoint (l : N) : bool :=
  (toLowerCodePoint l =? l)%N
  && (if isLetter l then
        match toUpperCodePoint l with
        | [u] =>
            isLetter (toLowerCodePoint u)
            && match toUpperCodePoint (toLowerCodePoint u) with
               | [u'] => (u' =? u)%N
               | _ => false
               end
        | _ => false
        end
      else true).

(** A character as the first pass of [capitalizeEachWord] leaves it inside
    the range: it is its own lower case, and it is the sharp s or is stable. *)
Definition lowered (l : N) : Prop :=
  toLowerCodePoint l = l /\ (l = 223%N \/ stableCodePoint l = true).

(** The code points of Basic Latin and the Latin-1 Supplement. *)
Definition latin1CodePoints : list N := map N.of_nat (seq 0 256).

(** [parseInt(str)]: leading white space, a sign, then decimal digits up to
    the first other character; [None] is [NaN]. (The form field is a number
    input: its value has no [0x] prefix.) *)
Definition digitValue (c : N) : option Z :=
  if inRange 48 57 c then Some (Z.of_N c - 48) else None.

Fixpoint parseDigits (acc : option Z) (s : ustring) : option Z :=
  match s with
  | [] => acc
  | c :: rest =>
      match digitValue c with
      | Some v => parseDigits (Some (10 * match acc with Some a => a | None => 0 end + v)) rest
      | None => acc
      end
  end.

Fixpoint skipWhiteSpace (s : ustring) : ustring :=
  match s with
  | c :: rest => if isWhiteSpace c then skipWhiteSpace rest else s
  | [] => []
  end.

Definition parseInt (str : ustring) : option Z :=
  match skipWhiteSpace str with
  | 45%N :: rest => option_map Z.opp (parseDigits None rest)
  | 43%N :: rest => parseDigits None rest
  | s => parseDigits None s
  end.

(** ** URLs: the platform functions used by the share link and at start-up

    Strings are byte strings here: a character outside ASCII is its UTF-8
    bytes. *)

Definition asciiInRange (lo hi c : ascii) : bool :=
  inRange (N_of_ascii lo) (N_of_ascii hi) (N_of_ascii c).

(** The characters [encodeURIComponent] leaves alone: letters, digits and
    [- _ . ! ~ * ' ( )]. *)
Definition isUnreserved (c : ascii) : bool :=
  asciiInRange "A" "Z" c || asciiInRange "a" "z" c || asciiInRange "0" "9" c
  || existsb (Ascii.eqb c) ["-"; "_"; "."; "!"; "~"; "*"; "'"; "("; ")"]%char.

Definition hexDigit (n : N) : ascii :=
  (if n <? 10 then ascii_of_N (48 + n) else ascii_of_N (55 + n))%N.

Definition percentEncode (c : ascii) : string :=
  String "%" (String (hexDigit (N_of_ascii c / 16))
                (String (hexDigit (N_of_ascii c mod 16)) EmptyString)).

(** [encodeURIComponent(s)] *)
Fixpoint encodeURIComponent (s : string) : string :=
  match s with
  | EmptyString => EmptyString
  | String c rest =>
      if isUnreserved c then String c (encodeURIComponent rest)
      else String.append (percentEncode c) (encodeURIComponent rest)
  end.

Definition hexValue (c : ascii) : option N :=
  (if asciiInRange "0" "9" c then Some (N_of_ascii c - 48)
   else if asciiInRange "A" "F" c then Some (N_of_ascii c - 55)
   else if asciiInRange "a" "f" c then Some (N_of_ascii c - 87)
   else None)%N.

Definition hexByte (a b : ascii) : option N :=
  match hexValue a, hexValue b with
  | Some x, Some y => Some (16 * x + y)%N
  | _, _ => None
  end.

(** [decodeURIComponent(s)]; [None] is the [URIError] it throws on a [%]
    that does not start an escape, or on escapes that are not the UTF-8
    bytes of a character. [pending] counts the continuation bytes still
    expected. (Overlong forms and surrogates, which the platform rejects as
    well, are not told apart.) *)
Fixpoint decodeEscapes (pending : nat) (s : string) : option string :=
  match s with
  | EmptyString =>
      match pending with O => Some EmptyString | S _ => None end
  | String "%" (String a (String b rest)) =>
      match hexByte a b with
      | None => None
      | Some v =>
          match pending with
          | O =>
              if (v <? 128)%N then option_map (String (ascii_of_N v)) (decodeEscapes 0 rest)
              else if inRange 194 223 v then option_map (String (ascii_of_N v)) (decodeEscapes 1 rest)
              else if inRange 224 239 v then option_map (String (ascii_of_N v)) (decodeEscapes 2 rest)
              else if inRange 240 244 v then option_map (String (ascii_of_N v)) (decodeEscapes 3 rest)
              else None
          | S k =>
              if inRange 128 191 v then option_map (String (ascii_of_N v)) (decodeEscapes k rest)
              else None
          end
      end
  | String "%" _ => None
  | String c rest =>
      match pending with
      | O => option_map (String c) (decodeEscapes 0 rest)
      | S _ => None
      end
  end.

Definition decodeURIComponent (s : string) : option string := decodeEscapes 0 s.

(** The parser of [new URLSearchParams(search)]: one leading [?] is dropped,
    the rest is cut at each [&], each piece at its first [=]; in names and
    values [+] is a space and [%XX] is the byte [XX] (a [%] that starts no
    escape stays). *)
Fixpoint splitOn (sep : ascii) (s : string) : list string :=
  match s with
  | EmptyString => [EmptyString]
  | String c rest =>
      if Ascii.eqb c sep then EmptyString :: splitOn sep rest
      else match splitOn sep rest with
           | piece :: pieces => String c piece :: pieces
           | [] => [String c EmptyString]
           end
  end.

Fixpoint splitAtFirst (sep : ascii) (s : string) : string * string :=
  match s with
  | EmptyString => (EmptyString, EmptyString)
  | String c rest =>
      if Ascii.eqb c sep then (EmptyString, rest)
      else let (name, value) := splitAtFirst sep rest in (String c name, value)
  end.

Fixpoint formDecode (s : string) : string :=
  match s with
  | EmptyString => EmptyString
  | String "+" rest => String " " (formDecode rest)
  | String "%" (String a (String b rest)) =>
      match hexByte a b with
      | Some v => String (ascii_of_N v) (formDecode rest)
      | None => String "%" (String a (String b (formDecode rest)))
      end
  | String c rest => String c (formDecode rest)
  end.

Definition URLSearchParams (search : string) : list (string * string) :=
  let query := match search with String "?" q => q | _ => search end in
  map (fun piece => let (name, value) := splitAtFirst "=" piece in
                    (formDecode name, formDecode value))
      (filter (fun piece => negb (String.eqb piece EmptyString)) (splitOn "&" query)).

(** [params.get(name)]: the value of the first pair of that name, or [null]. *)
Definition params_get (params : list (string * string)) (name : string) : option string :=
  option_map snd (find (fun p => String.eqb (fst p) name) params).

(** [window.location.search] of the page at [origin ++ rest]: the part of
    [rest] from its first [?] up to a [#]; the empty string when the query is
    empty. *)
Fixpoint upToHash (s : string) : string :=
  match s with
  | EmptyString => EmptyString
  | String "#" _ => EmptyString
  | String c rest => String c (upToHash rest)
  end.

Fixpoint location_search (rest : string) : string :=
  match rest with
  | EmptyString => EmptyString
  | String "#" _ => EmptyString
  | String "?" q =>
      match upToHash q with
      | EmptyString => EmptyString
      | q' => String "?" q'
      end
  | String _ rest' => location_search rest'
  end.

(** An id made of characters that [encodeURIComponent] leaves alone, such as
    an integer in decimal or a UUID. *)
Fixpoint allUnreserved (s : string) : bool :=
  match s with
  | EmptyString => true
  | String c rest => isUnreserved c && allUnreserved rest
  end.

(** [String(v)], the conversion [encodeURIComponent] applies to its argument. *)
Definition toString (v : JsVal) : string :=
  match v with
  | JNull => "null"
  | JNum z => DecimalString.NilZero.string_of_int (Z.to_int z)
  | JStr s => s
  end.

(** ** The application: state, store and effects *)

(** The values of [viewMode]: ['list'], ['details'], ['add'], ['lineageTree']. *)
Inductive ViewMode : Type :=
| view_list
| view_details
| view_add
| view_lineageTree.

(** The state hooks of [App]. *)
Record AppState : Type := mkAppState {
  horses : list Horse;
  loading : bool;
  error : option string;
  viewMode : ViewMode;
  selectedHorseId : JsVal;
  isSharedView : bool;
  shareMessage : string
}.

(** The initial values of the hooks. *)
Definition initialApp : AppState :=
  mkAppState [] true None view_list JNull false EmptyString.

(** A file chosen in the form. *)
Record PhotoFile : Type := mkPhotoFile {
  file_name : string;
  file_type : string
}.

(** The object [handleSubmit] passes to [onAddHorse]. *)
Record NewHorseData : Type := mkNewHorseData {
  data_name : ustring;
  data_breed : ustring;
  data_age : option Z;
  data_sex : ustring;
  data_fatherId : JsVal;
  data_motherId : JsVal;
  data_birthDate : option string;
  data_photoFile : option PhotoFile
}.

(** The object of the [insert] call of [addHorse]. *)
Record InsertRow : Type := mkInsertRow {
  row_nome : ustring;
  row_raca : ustring;
  row_idade : option Z;
  row_sexo : ustring;
  row_pai_id : JsVal;
  row_mae_id : JsVal;
  row_url_imagem : option string
}.

(** The remote store: the table [cavalos] and the bucket [fotos-cavalos]. *)
Record Supabase : Type := mkSupabase {
  cavalos : list Horse;
  fotos_cavalos : list (string * PhotoFile)
}.

(** How the store answers, which the program does not control: the error of
    an upload if any, the [publicUrl] of a path ([None] when
    [publicUrlData] is null, [Some None] when it has no [publicUrl]), and
    the error of an insert or the record created ([data[0]]). *)
Record Backend : Type := mkBackend {
  upload_answer : Supabase -> string -> PhotoFile -> option string;
  publicUrl_answer : Supabase -> string -> option (option string);
  insert_answer : Supabase -> InsertRow -> string + Horse
}.

(** The requests sent to the store. *)
Inductive Request : Type :=
| ReqUpload (filePath : string) (file : PhotoFile)
| ReqGetPublicUrl (filePath : string)
| ReqInsert (row : InsertRow).

(** Everything [addHorse] reads and writes: the hooks, the store, the
    requests sent so far (latest first), and what the user was shown through
    [alert] and [console.error] (latest first). *)
Record World : Type := mkWorld {
  app : AppState;
  supabase : Supabase;
  requests : list Request;
  alerts : list string;
  console : list string
}.

(** Computations that change the world and either return or throw an error
    with a message. *)
Definition M (A : Type) : Type := World -> (string + A) * World.

Definition ret {A : Type} (a : A) : M A := fun w => (inr a, w).

Definition bind {A B : Type} (m : M A) (k : A -> M B) : M B :=
  fun w => match m w with
           | (inr a, w') => k a w'
           | (inl err, w') => (inl err, w')
           end.

Definition throw {A : Type} (message : string) : M A := fun w => (inl message, w).

(** [try { body } catch (err) { handler } finally { final }] *)
Definition tryCatchFinally (body : M unit) (handler : string -> M unit)
    (final : M unit) : M unit :=
  fun w =>
    match body w with
    | (inr _, w1) => final w1
    | (inl err, w1) =>
        match handler err w1 with
        | (inr _, w2) => final w2
        | (inl err', w2) =>
            match final w2 with
            | (inr _, w3) => (inl err', w3)
            | (inl err'', w3) => (inl err'', w3)
            end
        end
    end.

Declare Scope m_scope.
Delimit Scope m_scope with M.
Notation "x <- m ;; k" := (bind m (fun x => k))
  (at level 61, m at next level, right associativity) : m_scope.
Notation "m ;; k" := (bind m (fun _ => k))
  (at level 61, right associativity) : m_scope.

Definition modifyApp (f : AppState -> AppState) : M unit :=
  fun w => (inr tt, mkWorld (f (app w)) (supabase w) (requests w) (alerts w) (console w)).

Definition setHorses (f : list Horse -> list Horse) : M unit :=
  modifyApp (fun a => mkAppState (f (horses a)) (loading a) (error a) (viewMode a)
                        (selectedHorseId a) (isSharedView a) (shareMessage a)).

Definition setLoading (b : bool) : M unit :=
  modifyApp (fun a => mkAppState (horses a) b (error a) (viewMode a)
                        (selectedHorseId a) (isSharedView a) (shareMessage a)).

Definition setError (e : option string) : M unit :=
  modifyApp (fun a => mkAppState (horses a) (loading a) e (viewMode a)
                        (selectedHorseId a) (isSharedView a) (shareMessage a)).

Definition setViewMode (v : ViewMode) : M unit :=
  modifyApp (fun a => mkAppState (horses a) (loading a) (error a) v
                        (selectedHorseId a) (isSharedView a) (shareMessage a)).

Definition alert (message : string) : M unit :=
  fun w => (inr tt, mkWorld (app w) (supabase w) (requests w)
                      (message :: alerts w) (console w)).

Definition console_error (message : string) : M unit :=
  fun w => (inr tt, mkWorld (app w) (supabase w) (requests w)
                      (alerts w) (message :: console w)).

(** [supabase.storage.from('fotos-cavalos').upload(filePath, file)]: the
    result is [uploadError]; the blob is stored when there is none. *)
Definition storage_upload (be : Backend) (filePath : string) (file : PhotoFile)
  : M (option string) :=
  fun w =>
    let answer := upload_answer be (supabase w) filePath file in
    let store' :=
      match answer with
      | None => mkSupabase (cavalos (supabase w))
                  ((filePath, file) :: fotos_cavalos (supabase w))
      | Some _ => supabase w
      end in
    (inr answer,
     mkWorld (app w) store' (ReqUpload filePath file :: requests w)
       (alerts w) (console w)).

(** [supabase.storage.from('fotos-cavalos').getPublicUrl(filePath)] *)
Definition storage_getPublicUrl (be : Backend) (filePath : string)
  : M (option (option string)) :=
  fun w =>
    (inr (publicUrl_answer be (supabase w) filePath),
     mkWorld (app w) (supabase w) (ReqGetPublicUrl filePath :: requests w)
       (alerts w) (console w)).

(** [supabase.from('cavalos').insert([row]).select()]: the record is appended
    to the table when the store accepts it. *)
Definition db_insert (be : Backend) (row : InsertRow) : M (string + Horse) :=
  fun w =>
    let answer := insert_answer be (supabase w) row in
    let store' :=
      match answer with
      | inr created => mkSupabase (cavalos (supabase w) ++ [created])
                         (fotos_cavalos (supabase w))
      | inl _ => supabase w
      end in
    (inr answer,
     mkWorld (app w) store' (ReqInsert row :: requests w) (alerts w) (console w)).

(** [name.split('.').pop()] *)
Definition fileExtension (name : string) : string :=
  last (splitOn "." name) EmptyString.

Local Open Scope m_scope.

(** [`public/${uuidv4()}.${fileExtension}`], [uuid] being the value of
    [uuidv4()]. *)
Definition filePathOf (uuid : string) (photoFile : PhotoFile) : string :=
  String.append "public/"
    (String.append uuid (String.append "." (fileExtension (file_name photoFile)))).

(** [publicUrlData && publicUrlData.publicUrl]: the URL when the test holds. *)
Definition publicUrlOf (publicUrlData : option (option string)) : option string :=
  match publicUrlData with
  | Some (Some publicUrl) =>
      if String.eqb publicUrl EmptyString then None else Some publicUrl
  | _ => None
  end.

(** Step 1 of [addHorse]: the upload of the photo and its public URL. The
    result is the value of [photoUrl]. *)
Definition uploadPhoto (be : Backend) (uuid : string) (newHorseData : NewHorseData)
  : M (option string) :=
  match data_photoFile newHorseData with
  | Some photoFile =>
      let filePath := filePathOf uuid photoFile in
      uploadError <- storage_upload be filePath photoFile ;;
      match uploadError with
      | Some message => throw message
      | None =>
          publicUrlData <- storage_getPublicUrl be filePath ;;
          match publicUrlOf publicUrlData with
          | Some publicUrl => ret (Some publicUrl)
          | None => throw "Não foi possível obter o URL público da imagem após o upload."
          end
      end
  | None => ret None
  end.

(** The object inserted in step 2. *)
Definition insertRowOf (newHorseData : NewHorseData) (photoUrl : option string)
  : InsertRow :=
  mkInsertRow (data_name newHorseData) (data_breed newHorseData)
    (data_age newHorseData) (data_sex newHorseData)
    (data_fatherId newHorseData) (data_motherId newHorseData) photoUrl.

(** The [try] block of [addHorse]. *)
Definition addHorse_try (be : Backend) (uuid : string) (newHorseData : NewHorseData)
  : M unit :=
  photoUrl <- uploadPhoto be uuid newHorseData ;;
  answer <- db_insert be (insertRowOf newHorseData photoUrl) ;;
  match answer with
  | inl insertError => throw insertError
  | inr created =>
      setHorses (fun prevHorses => prevHorses ++ [created]) ;;
      setViewMode view_list ;;
      alert "Cavalo adicionado com sucesso!"
  end.

(** The [catch] block of [addHorse]; [message] is [err.message]. *)
Definition addHorse_catch (message : string) : M unit :=
  console_error
    (String.append "Erro ao adicionar cavalo ou fazer upload da imagem: " message) ;;
  setError (Some (String.append "Falha ao adicionar cavalo: " message)) ;;
  alert (String.append "Falha ao adicionar cavalo: " message).

(** [addHorse(newHorseData)] of [App]. *)
Definition addHorse (be : Backend) (uuid : string) (newHorseData : NewHorseData)
  : M unit :=
  setLoading true ;;
  setError None ;;
  tryCatchFinally (addHorse_try be uuid newHorseData) addHorse_catch
    (setLoading false).

Local Close Scope m_scope.

(** The state hooks of [HorseForm]. The values of the two [select] elements
    are strings: the empty string for the option of no parent, the id of the
    chosen horse otherwise. *)
Record FormState : Type := mkFormState {
  form_name : ustring;
  form_breed : ustring;
  form_age : ustring;
  form_sex : ustring;
  form_selectedFile : option PhotoFile;
  form_previewPhoto : option string;
  form_fatherId : string;
  form_motherId : string;
  form_birthDate : string
}.

Definition emptyForm : FormState :=
  mkFormState [] [] [] [] None None EmptyString EmptyString EmptyString.

Definition isEmptyText (s : ustring) : bool :=
  match s with [] => true | _ => false end.

(** [value === '' ? null : value] *)
Definition parentSelection (value : string) : JsVal :=
  if String.eqb value EmptyString then JNull else JStr value.

(** The argument of [onAddHorse] in [handleSubmit]. *)
Definition submittedData (f : FormState) : NewHorseData :=
  mkNewHorseData
    (capitalizeEachWord (form_name f))
    (capitalizeEachWord (form_breed f))
    (parseInt (form_age f))
    (capitalizeEachWord (form_sex f))
    (parentSelection (form_fatherId f))
    (parentSelection (form_motherId f))
    (if String.eqb (form_birthDate f) EmptyString then None else Some (form_birthDate f))
    (form_selectedFile f).

(** [handleSubmit] of [HorseForm]: the form after the handler, and the world.
    [onAddHorse] is not awaited, and the setters that follow it reset every
    field; the two act on different state, so the call is run to its end
    first. *)
Definition handleSubmit (onAddHorse : NewHorseData -> M unit) (f : FormState)
    (w : World) : FormState * World :=
  if isEmptyText (form_name f) || isEmptyText (form_breed f)
     || isEmptyText (form_age f) || isEmptyText (form_sex f)
  then
    (f, snd (alert "Por favor, preencha todos os campos obrigatórios (Nome, Raça, Idade, Sexo)." w))
  else
    let w' := snd (onAddHorse (submittedData f) w) in
    (emptyForm, w').

(** The share link of [handleShareClick]. *)
Definition shareUrl (origin : string) (horse : Horse) : string :=
  String.append origin
    (String.append "/?id="
       (String.append (encodeURIComponent (toString (id horse))) "&shared=true")).

(** The part of the start-up effect of [App] that reads the query
    parameters; [None] when [decodeURIComponent] throws. *)
Definition startup (search : string) (a : AppState) : option AppState :=
  let params := URLSearchParams search in
  let horseIdParam := params_get params "id" in
  let sharedParam := params_get params "shared" in
  match horseIdParam with
  | Some value =>
      if String.eqb value EmptyString then
        Some (mkAppState (horses a) (loading a) (error a) view_list
                (selectedHorseId a) false (shareMessage a))
      else
        match decodeURIComponent value with
        | Some decoded =>
            Some (mkAppState (horses a) (loading a) (error a) view_details
                    (JStr decoded)
                    (match sharedParam with
                     | Some flag => if String.eqb flag "true" then true else isSharedView a
                     | None => isSharedView a
                     end)
                    (shareMessage a))
        | None => None
        end
  | None =>
      Some (mkAppState (horses a) (loading a) (error a) view_list
              (selectedHorseId a) false (shareMessage a))
  end.

(** ** The text normalisation over any case tables

    What the platform provides to [capitalizeEachWord]: the class [\p{L}],
    [toLowerCase] on a whole text (its result may depend on the context of a
    character, as for the final sigma), and the upper-case mapping of a code
    point, which [toUpperCase] applies code point by code point. The tables
    above are one instance, right for Basic Latin and the Latin-1 Supplement;
    what is stated of every text is stated over every instance. *)
Record CaseTables : Type := mkCaseTables {
  isLetterOf : N -> bool;
  toLowerCaseOf : ustring -> ustring;
  toUpperCodePointOf : N -> list N
}.

Definition latin1Tables : CaseTables :=
  mkCaseTables isLetter toLowerCase toUpperCodePoint.

(** [str.toUpperCase()] *)
Definition toUpperCaseOn (T : CaseTables) (s : ustring) : ustring :=
  flat_map (toUpperCodePointOf T) s.

(** The [replace] of [capitalizeEachWord], as [replaceMatches]. *)
Fixpoint replaceMatchesOn (T : CaseTables) (atStart : bool) (s : ustring) : ustring :=
  match s with
  | [] => []
  | c :: rest =>
      if atStart && isLetterOf T c then
        toUpperCaseOn T [c] ++ replaceMatchesOn T false rest
      else if isBoundary c then
        match rest with
        | l :: rest' =>
            if isLetterOf T l
            then toUpperCaseOn T [c; l] ++ replaceMatchesOn T false rest'
            else c :: replaceMatchesOn T false rest
        | [] => [c]
        end
      else c :: replaceMatchesOn T false rest
  end.

(** [capitalizeEachWord] of [HorseForm]. *)
Definition capitalizeEachWordOn (T : CaseTables) (str : ustring) : ustring :=
  match str with
  | [] => []
  | _ => replaceMatchesOn T true (toLowerCaseOf T str)
  end.

(** The normalisation in the words of the specification, as
    [spec_capitalizeSegments]. *)
Fixpoint spec_capitalizeSegmentsOn (T : CaseTables) (segmentStart : bool)
    (s : ustring) : ustring :=
  match s with
  | [] => []
  | c :: rest =>
      (if segmentStart && isLetterOf T c then toUpperCodePointOf T c else [c])
      ++ spec_capitalizeSegmentsOn T (isBoundary c) rest
  end.

Definition spec_normalizeOn (T : CaseTables) (s : ustring) : ustring :=
  spec_capitalizeSegmentsOn T true s.

(** The argument of [onAddHorse] in [handleSubmit]; [submittedData] is its
    instance at [latin1Tables]. *)
Definition submittedDataOn (T : CaseTables) (f : FormState) : NewHorseData :=
  mkNewHorseData
    (capitalizeEachWordOn T (form_name f))
    (capitalizeEachWordOn T (form_breed f))
    (parseInt (form_age f))
    (capitalizeEachWordOn T (form_sex f))
    (parentSelection (form_fatherId f))
    (parentSelection (form_motherId f))
    (if String.eqb (form_birthDate f) EmptyString then None
     else Some (form_birthDate f))
    (form_selectedFile f).

(** Whether a segment of [s] starts with the code point [x]; [segmentStart]
    tells whether the next character starts a segment. *)
Fixpoint segmentStartsWith (x : N) (segmentStart : bool) (s : ustring) : bool :=
  match s with
  | [] => false
  | c :: rest =>
      (segmentStart && (c =? x)%N) || segmentStartsWith x (isBoundary c) rest
  end.

(** ** Failures of an add, as the store answers *)

(** The store once the blob of [photoFile] is in the bucket. *)
Definition withBlob (store : Supabase) (uuid : string) (photoFile : PhotoFile)
  : Supabase :=
  mkSupabase (cavalos store)
    ((filePathOf uuid photoFile, photoFile) :: fotos_cavalos store).

(** [UploadStageFails be uuid data store]: a photo is attached, and either
    its upload is refused, or it is stored and no public URL comes back. *)
Inductive UploadStageFails (be : Backend) (uuid : string)
    (newHorseData : NewHorseData) (store : Supabase) : string -> Prop :=
| upload_refused : forall photoFile message,
    data_photoFile newHorseData = Some photoFile ->
    upload_answer be store (filePathOf uuid photoFile) photoFile = Some message ->
    UploadStageFails be uuid newHorseData store message
| public_url_missing : forall photoFile,
    data_photoFile newHorseData = Some photoFile ->
    upload_answer be store (filePathOf uuid photoFile) photoFile = None ->
    publicUrlOf (publicUrl_answer be (withBlob store uuid photoFile)
                   (filePathOf uuid photoFile)) = None ->
    UploadStageFails be uuid newHorseData store
      "Não foi possível obter o URL público da imagem após o upload.".

(** [InsertFails be uuid data store]: step 1 went through (no photo, or a
    photo stored with a public URL) and the store refuses the record. *)
Inductive InsertFails (be : Backend) (uuid : string)
    (newHorseData : NewHorseData) (store : Supabase) : string -> Prop :=
| insert_refused_no_photo : forall message,
    data_photoFile newHorseData = None ->
    insert_answer be store (insertRowOf newHorseData None) = inl message ->
    InsertFails be uuid newHorseData store message
| insert_refused_with_photo : forall photoFile publicUrl message,
    data_photoFile newHorseData = Some photoFile ->
    upload_answer be store (filePathOf uuid photoFile) photoFile = None ->
    publicUrlOf (publicUrl_answer be (withBlob store uuid photoFile)
                   (filePathOf uuid photoFile)) = Some publicUrl ->
    insert_answer be (withBlob store uuid photoFile)
      (insertRowOf newHorseData (Some publicUrl)) = inl message ->
    InsertFails be uuid newHorseData store message.

(** What the user and the state see of a failed add with message [message],
    from world [w] to world [w']. *)
Definition FailureReported (w w' : World) (message : string) : Prop :=
  alerts w' = String.append "Falha ao adicionar cavalo: " message :: alerts w
  /\ error (app w') = Some (String.append "Falha ao adicionar cavalo: " message)
  /\ loading (app w') = false
  /\ viewMode (app w') = viewMode (app w)
  /\ horses (app w') = horses (app w)
  /\ cavalos (supabase w') = cavalos (supabase w).

(** The required fields are filled: the test of [handleSubmit] passes. *)
Definition requiredFilled (f : FormState) : bool :=
  negb (isEmptyText (form_name f) || isEmptyText (form_breed f)
        || isEmptyText (form_age f) || isEmptyText (form_sex f)).

(** ** Sample form and stores *)

Definition samplePhoto : PhotoFile := mkPhotoFile "zeus.final.jpg" "image/jpeg".

Definition sampleForm : FormState :=
  mkFormState (utext "zeus") (utext "crioulo") (utext "4") (utext "Macho")
    (Some samplePhoto) None EmptyString EmptyString EmptyString.

Definition sampleFormNoPhoto : FormState :=
  mkFormState (utext "zeus") (utext "crioulo") (utext "4") (utext "Macho")
    None None EmptyString EmptyString EmptyString.

Definition createdOf (row : InsertRow) : Horse :=
  mkHorse (JNum 10) (row_nome row) (row_raca row) (row_idade row) (row_sexo row)
    (row_url_imagem row) (row_pai_id row) (row_mae_id row).

(** A store that refuses every upload. *)
Definition refusingUploads : Backend :=
  mkBackend (fun _ _ _ => Some "Bucket not found")
    (fun _ path => Some (Some (String.append "https://cdn/" path)))
    (fun _ row => inr (createdOf row)).

(** A store that takes the upload and gives no public URL. *)
Definition withoutPublicUrl : Backend :=
  mkBackend (fun _ _ _ => None) (fun _ _ => Some None)
    (fun _ row => inr (createdOf row)).

(** A store that refuses every insert. *)
Definition refusingInserts : Backend :=
  mkBackend (fun _ _ _ => None)
    (fun _ path => Some (Some (String.append "https://cdn/" path)))
    (fun _ _ => inl "permission denied").

(** A store that accepts everything. *)
Definition acceptingAll : Backend :=
  mkBackend (fun _ _ _ => None)
    (fun _ path => Some (Some (String.append "https://cdn/" path)))
    (fun _ row => inr (createdOf row)).

(** The world while the form is shown: three horses loaded, [viewMode] is
    ['add']. *)
Definition addWorld : World :=
  mkWorld (mkAppState scenarioHorses false None view_add JNull false EmptyString)
    (mkSupabase scenarioHorses []) [] [] [].

Definition horse42 : Horse :=
  mkHorse (JStr "42") (utext "Zeus") (utext "Crioulo") (Some 4) (utext "Macho")
    None JNull JNull.

(** ** The rest of [App]: loading, navigation and what is rendered *)

(** [fetchHorses]; [select_answer] is what the [select] on [cavalos]
    resolves to: the message of its error, or the rows. The read leaves the
    store as it is. *)
Definition fetchHorses (select_answer : Supabase -> string + list Horse) : M unit :=
  bind (setLoading true) (fun _ =>
  bind (setError None) (fun _ =>
  tryCatchFinally
    (fun w =>
       match select_answer (supabase w) with
       | inl message => throw message w
       | inr data => setHorses (fun _ => data) w
       end)
    (fun message =>
       bind (console_error (String.append "Erro ao buscar cavalos: " message)) (fun _ =>
       setError (Some "Falha ao carregar cavalos. Verifique sua conexão ou configurações do Supabase.")))
    (setLoading false))).

(** [goToHorseDetails(id)] *)
Definition goToHorseDetails (horseId : JsVal) (a : AppState) : AppState :=
  mkAppState (horses a) (loading a) (error a) view_details horseId false
    (shareMessage a).

(** What [App] puts in [content]. *)
Inductive Content : Type :=
| LoadingPanel
| ErrorPanel (message : string)
| HorseListView (horses : list Horse)
| HorseDetailView (horse : Horse) (isSharedView : bool)
| NotFoundPanel
| HorseFormView
| LineageTreeView (rootHorse : option Horse).

(** The choice of [content] in [App]: the loading text, then the error
    panel when [error] is truthy, then the view of [viewMode]. ([HorseList]
    shows the collection sorted by name.) *)
Definition content (a : AppState) : Content :=
  if loading a then LoadingPanel
  else
    match error a with
    | Some (String c message) => ErrorPanel (String c message)
    | _ =>
        match viewMode a with
        | view_list => HorseListView (horses a)
        | view_details =>
            match findById (horses a) (selectedHorseId a) with
            | Some horse => HorseDetailView horse (isSharedView a)
            | None => NotFoundPanel
            end
        | view_add => HorseFormView
        | view_lineageTree =>
            LineageTreeView (findById (horses a) (selectedHorseId a))
        end
    end.

(** [maxGeneration] and [treeData] of [LineageTreeD3]. *)
Definition maxGeneration : Z := 5.

Definition treeData (rootHorse : option Horse) (horses : list Horse)
  : option TreeNode :=
  buildD3AncestryData rootHorse horses maxGeneration 0.

(** The nodes of a tree, the root first ([root.descendants()], which gets
    one drawn card and one click handler per node). *)
Fixpoint descendants (t : TreeNode) : list TreeNode :=
  match t with
  | mkTreeNode _ _ _ _ _ _ cs => t :: flat_map descendants cs
  end.

(** The handlers the rendered content gives the user for moving between
    views. *)
Inductive Action : Type :=
| SelectHorse (horseId : JsVal)
| AddHorseClicked
| BackToList
| ViewLineage
| BackToDetails
| CancelAdd
| NotFoundBack.

(** What each handler does to the state: [onSelectHorse] is
    [goToHorseDetails]; [onAddHorse] of the list, [onViewLineage], [onBack]
    of the tree, [onCancel] and the button of the panel of a horse not found
    set [viewMode]; [onBack] of the details also clears the shared flag. *)
Definition act (x : Action) (a : AppState) : AppState :=
  match x with
  | SelectHorse horseId => goToHorseDetails horseId a
  | AddHorseClicked =>
      mkAppState (horses a) (loading a) (error a) view_add
        (selectedHorseId a) (isSharedView a) (shareMessage a)
  | BackToList =>
      mkAppState (horses a) (loading a) (error a) view_list
        (selectedHorseId a) false (shareMessage a)
  | ViewLineage =>
      mkAppState (horses a) (loading a) (error a) view_lineageTree
        (selectedHorseId a) (isSharedView a) (shareMessage a)
  | BackToDetails =>
      mkAppState (horses a) (loading a) (error a) view_details
        (selectedHorseId a) (isSharedView a) (shareMessage a)
  | CancelAdd | NotFoundBack =>
      mkAppState (horses a) (loading a) (error a) view_list
        (selectedHorseId a) (isSharedView a) (shareMessage a)
  end.

(** The handlers attached to what is rendered: one [onSelectHorse] per item
    of the list and per node of the tree; the buttons of the details, absent
    from a shared view. *)
Definition actions (a : AppState) : list Action :=
  match content a with
  | LoadingPanel => []
  | ErrorPanel _ => []
  | HorseListView hs => AddHorseClicked :: map (fun h => SelectHorse (id h)) hs
  | HorseDetailView _ shared => if shared then [] else [ViewLineage; BackToList]
  | NotFoundPanel => [NotFoundBack]
  | HorseFormView => [CancelAdd]
  | LineageTreeView rootHorse =>
      BackToDetails ::
      match rootHorse with
      | Some root =>
          match treeData (Some root) (horses a) with
          | Some t => map (fun n => SelectHorse (node_id n)) (descendants t)
          | None => []
          end
      | None => []
      end
  end.

(** What can happen to the application once it has started: a handler of
    the rendered content, a fetch (the first one, or a retry) with what the
    store answers, the submission of a new horse. *)
Inductive Step : Type :=
| DoAction (x : Action)
| DoFetch (select_answer : Supabase -> string + list Horse)
| DoAdd (be : Backend) (uuid : string) (newHorseData : NewHorseData).

Definition step (e : Step) (w : World) : World :=
  match e with
  | DoAction x =>
      mkWorld (act x (app w)) (supabase w) (requests w) (alerts w) (console w)
  | DoFetch select_answer => snd (fetchHorses select_answer w)
  | DoAdd be uuid newHorseData => snd (addHorse be uuid newHorseData w)
  end.

(** The world after a sequence of steps. *)
Definition run (es : list Step) (w : World) : World :=
  fold_left (fun s e => step e s) es w.

(** ** The rest of [HorseDetail] and [HorseForm] *)

(** [getParentName(parentId)] of [HorseDetail]; [None] is [null]. *)
Definition getParentName (horses : list Horse) (parentId : JsVal) : option ustring :=
  match findById horses parentId with
  | Some parent => Some (nome parent)
  | None => None
  end.

(** Whether a name is truthy, which is when the details show it instead of
    the text for a parent that is not registered. *)
Definition nameShown (parentName : option ustring) : bool :=
  match parentName with
  | Some (_ :: _) => true
  | _ => false
  end.

(** The test of the note on relatives registered by id without details:
    [(horse.pai_id && !fatherName) || (horse.mae_id && !motherName)]. *)
Definition missingParentNote (horses : list Horse) (horse : Horse) : bool :=
  (truthy (pai_id horse) && negb (nameShown (getParentName horses (pai_id horse))))
  || (truthy (mae_id horse) && negb (nameShown (getParentName horses (mae_id horse)))).

(** Equality of two texts ([===] on strings). *)
Fixpoint ustring_eqb (a b : ustring) : bool :=
  match a, b with
  | [], [] => true
  | x :: a', y :: b' => N.eqb x y && ustring_eqb a' b'
  | _, _ => false
  end.

(** The values of the options of the sex field, ['Macho'] and ['Fêmea']. *)
Definition macho : ustring := utext "Macho".
Definition femea : ustring := [70; 234; 109; 101; 97]%N.

(** The horses offered as father and as mother in [HorseForm]: the
    [filter] on [sexo] (the options are then shown sorted by name). *)
Definition fatherCandidates (horses : list Horse) : list Horse :=
  filter (fun h => ustring_eqb (sexo h) macho) horses.

Definition motherCandidates (horses : list Horse) : list Horse :=
  filter (fun h => ustring_eqb (sexo h) femea) horses.

(** [s.startsWith(prefix)] *)
Fixpoint startsWith (prefix s : string) : bool :=
  match prefix, s with
  | EmptyString, _ => true
  | String p prefix', String c s' => Ascii.eqb p c && startsWith prefix' s'
  | String _ _, EmptyString => false
  end.

(** [handleFileChange] of [HorseForm]. [file] is [e.target.files[0]] and
    [readerResult] the data URL the reader ends with, which becomes the
    preview. *)
Definition handleFileChange (file : option PhotoFile) (readerResult : option string)
    (f : FormState) (w : World) : FormState * World :=
  match file with
  | Some photo =>
      if startsWith "image/" (file_type photo) then
        (mkFormState (form_name f) (form_breed f) (form_age f) (form_sex f)
           (Some photo) readerResult
           (form_fatherId f) (form_motherId f) (form_birthDate f), w)
      else
        (mkFormState (form_name f) (form_breed f) (form_age f) (form_sex f)
           None None (form_fatherId f) (form_motherId f) (form_birthDate f),
         snd (alert "Por favor, selecione um ficheiro de imagem válido." w))
  | None =>
      (mkFormState (form_name f) (form_breed f) (form_age f) (form_sex f)
         None None (form_fatherId f) (form_motherId f) (form_birthDate f),
       snd (alert "Por favor, selecione um ficheiro de imagem válido." w))
  end.

(** ** Notions used to state further properties *)

(** [truncate k t]: [t] cut after [k] generations below the root. *)
Fixpoint truncate (k : nat) (t : TreeNode) : TreeNode :=
  mkTreeNode (node_id t) (node_name t) (node_breed t) (node_age t) (node_sex t)
    (node_photoUrl t)
    (match k with
     | O => []
     | S k' => map (truncate k') (children t)
     end).

(** Node [x] shows record [h]. *)
Definition showsHorse (h : Horse) (x : TreeNode) : Prop :=
  node_id x = id h /\ node_name x = nome h /\ node_breed x = raca h
  /\ node_age x = idade h /\ node_sex x = sexo h /\ node_photoUrl x = url_imagem h.

(** Every id of the collection is truthy, as the ids a store assigns are
    (positive numbers, non-empty strings). *)
Definition idsTruthy (allHorses : list Horse) : Prop :=
  forall x, In x allHorses -> truthy (id x) = true.

(** The upload requests among the requests sent. *)
Definition isUpload (r : Request) : bool :=
  match r with ReqUpload _ _ => true | _ => false end.

(** Whether character [c] occurs in [s]. *)
Fixpoint hasChar (c : ascii) (s : string) : bool :=
  match s with
  | EmptyString => false
  | String x rest => Ascii.eqb x c || hasChar c rest
  end.

(** The number of parent references of [horse] that are present. *)
Definition presentReferences (horse : Horse) : nat :=
  ((if truthy (pai_id horse) then 1 else 0)
   + (if truthy (mae_id horse) then 1 else 0))%nat.

(** A store whose table holds numeric ids only. *)
Definition numericIds (allHorses : list Horse) : Prop :=
  forall x, In x allHorses -> exists z, id x = JNum z.

(** ** More sample data *)

Definition horseUuid : Horse :=
  mkHorse (JStr "3f2a-77") (utext "Luna") (utext "Lusitano") (Some 6) (utext "Femea")
    None JNull JNull.

Definition textFile : PhotoFile := mkPhotoFile "notes.txt" "text/plain".

Definition loadedApp (hs : list Horse) : AppState :=
  mkAppState hs false None view_list JNull false EmptyString.

(** * Properties of the ancestry materialisation *)

Lemma strict_eq_eq (a b : JsVal) : strict_eq a b = true <-> a = b.
Proof.
  destruct a, b; simpl; split; intros H; try discriminate; try reflexivity.
  - apply Z.eqb_eq in H. congruence.
  - injection H as ->. apply Z.eqb_refl.
  - apply String.eqb_eq in H. congruence.
  - injection H as ->. apply String.eqb_refl.
Qed.

Lemma findById_In (allHorses : list Horse) (key : JsVal) (h : Horse) :
  findById allHorses key = Some h -> In h allHorses /\ id h = key.
Proof.
  unfold findById. intros H. apply find_some in H as [Hin Heq].
  split; [exact Hin | apply strict_eq_eq, Heq].
Qed.

Lemma lookupParent_In (allHorses : list Horse) (ref : JsVal) (h : Horse) :
  lookupParent allHorses ref = Some h -> In h allHorses /\ id h = ref.
Proof.
  unfold lookupParent. destruct (truthy ref); [apply findById_In | discriminate].
Qed.





Lemma dropNull_app {A : Type} (l1 l2 : list (option A)) :
  dropNull (l1 ++ l2) = dropNull l1 ++ dropNull l2.
Proof. unfold dropNull. apply flat_map_app. Qed.



Section Pedigree.

Variable allHorses : list Horse.

(** A call below the depth bound never yields [null], so the [filter] of the
    source removes nothing: the call computes [generations]. *)
Lemma build_generations (maxDepth : Z) :
  forall (n : nat) (h : Horse) (currentDepth : Z),
    Z.to_nat (maxDepth - currentDepth - 1) = n ->
    currentDepth < maxDepth ->
    buildD3AncestryData (Some h) allHorses maxDepth currentDepth
    = Some (generations allHorses n h).
Proof.
  induction n as [|n IH]; intros h c Hn Hc; simp buildD3AncestryData;
    destruct (Z_ge_dec c maxDepth) as [Hge|Hge]; try lia; simpl;
    destruct (Z_lt_dec c (maxDepth - 1)) as [Hlt|Hlt]; try lia; simpl.
  - reflexivity.
  - unfold parentsOf. rewrite dropNull_app, map_app.
    assert (Hrec : forall p, buildD3AncestryData (Some p) allHorses maxDepth (c + 1)
                             = Some (generations allHorses n p))
      by (intros p; apply IH; lia).
    destruct (lookupParent allHorses (pai_id h)) as [f|];
      destruct (lookupParent allHorses (mae_id h)) as [m|];
      rewrite ?Hrec; reflexivity.
Qed.

Lemma parentsOf_length (h : Horse) :
  (length (parentsOf allHorses h) <= 2)%nat.
Proof.
  unfold parentsOf.
  destruct (lookupParent allHorses (pai_id h)), (lookupParent allHorses (mae_id h));
    simpl; lia.
Qed.



Lemma height_generations_le :
  forall n h, (height (generations allHorses n h) <= S n)%nat.
Proof.
  induction n as [|n IH]; intros h; simpl; [lia|].
  apply le_n_S. apply list_max_le. rewrite map_map.
  apply Forall_forall. intros x Hx. apply in_map_iff in Hx as [p [<- _]]. apply IH.
Qed.




Lemma size_generations_le :
  forall n h, (size (generations allHorses n h) + 1 <= 2 ^ S n)%nat.
Proof.
  induction n as [|n IH]; intros h; [simpl; lia|].
  change (size (generations allHorses (S n) h))
    with (S (list_sum (map size (map (generations allHorses n)
                                   (parentsOf allHorses h))))).
  pose proof (parentsOf_length h) as Hlen.
  assert (Hpos : (1 <= 2 ^ S n)%nat)
    by (apply Nat.neq_0_lt_0, Nat.pow_nonzero; discriminate).
  rewrite (Nat.pow_succ_r' 2 (S n)).
  destruct (parentsOf allHorses h) as [|p [|q [|r ps]]]; simpl in Hlen; try lia;
    cbn [map list_sum fold_right].
  - lia.
  - pose proof (IH p). lia.
  - pose proof (IH p). pose proof (IH q). lia.
Qed.

End Pedigree.

(** ** The claims about [buildD3AncestryData] *)




(** In the scenario the chain of C through its father A has two horses, and
    the tree has two generations. *)
Example scenario_chain :
  AncestorChain truthy scenarioHorses horseC [horseC; horseA]
  /\ option_map height (buildD3AncestryData (Some horseC) scenarioHorses 3 0)
     = Some 2%nat.
Proof.
  split; [|reflexivity].
  apply chain_father with (f := horseA); [reflexivity | | apply chain_root].
  exists [], [horseB; horseC]. repeat split. intros x [].
Qed.

(** C2. Whatever the parent references are, cyclic or not, the call on a
    root that is present returns (the definition is by well-founded recursion
    on [maxDepth - currentDepth], which every call decreases), and what it
    returns is a finite tree of at most [maxDepth] generations, hence of at
    most [2 ^ maxDepth - 1] nodes. *)
Theorem materialize_terminates_bounded (allHorses : list Horse) (h : Horse)
    (maxDepth : Z) (Hd : 1 <= maxDepth) :
  exists t,
    buildD3AncestryData (Some h) allHorses maxDepth 0 = Some t
    /\ Z.of_nat (height t) <= maxDepth
    /\ Z.of_nat (size t) <= 2 ^ maxDepth - 1.
Proof.
  exists (generations allHorses (Z.to_nat (maxDepth - 1)) h).
  split; [apply build_generations; [f_equal|]; lia|].
  pose proof (height_generations_le allHorses (Z.to_nat (maxDepth - 1)) h).
  pose proof (size_generations_le allHorses (Z.to_nat (maxDepth - 1)) h) as Hs.
  split; [lia|].
  apply Nat2Z.inj_le in Hs. rewrite Nat2Z.inj_add, Nat2Z.inj_pow in Hs.
  replace (Z.of_nat (S (Z.to_nat (maxDepth - 1)))) with maxDepth in Hs by lia.
  simpl Z.of_nat in Hs. lia.
Qed.

Lemma materialize_terminates_bounded_witness :
  exists t,
    buildD3AncestryData (Some cycRoot) cyclicHorses 5 0 = Some t
    /\ Z.of_nat (height t) <= 5
    /\ Z.of_nat (size t) <= 2 ^ 5 - 1.
Proof. apply (materialize_terminates_bounded cyclicHorses cycRoot 5). lia. Defined.

(** On the cyclic collection the tree is cut at the fifth generation. *)
Example cyclic_five_generations :
  option_map height (buildD3AncestryData (Some cycRoot) cyclicHorses 5 0) = Some 5%nat
  /\ option_map size (buildD3AncestryData (Some cycRoot) cyclicHorses 5 0) = Some 9%nat.
Proof. split; reflexivity. Qed.

(** C3. The result is [null] when the root is absent or [maxDepth] is 0.
    For a root that is present and [maxDepth >= 1] it is a node that carries
    the root's id, name, breed, age, sex and photo URL and at most two
    children; a root with no registered parent gives a node without
    children. *)
Theorem materialize_contract (allHorses : list Horse) (h : Horse) (maxDepth : Z)
    (Hd : 1 <= maxDepth) :
  (forall d c, buildD3AncestryData None allHorses d c = None)
  /\ (forall horse, buildD3AncestryData horse allHorses 0 0 = None)
  /\ (exists cs,
         buildD3AncestryData (Some h) allHorses maxDepth 0
         = Some (mkTreeNode (id h) (nome h) (raca h) (idade h) (sexo h)
                   (url_imagem h) cs)
         /\ (length cs <= 2)%nat
         /\ (pai_id h = JNull -> mae_id h = JNull -> cs = [])).
Proof.
  split; [|split].
  - intros d c. simp buildD3AncestryData. reflexivity.
  - intros [x|]; simp buildD3AncestryData; reflexivity.
  - rewrite (build_generations allHorses maxDepth (Z.to_nat (maxDepth - 1)) h 0)
      by (try f_equal; lia).
    destruct (Z.to_nat (maxDepth - 1)) as [|n]; simpl.
    + exists []. repeat split. simpl. lia.
    + eexists. split; [reflexivity|]. split.
      * rewrite length_map. apply parentsOf_length.
      * intros Hf Hm. unfold parentsOf. rewrite Hf, Hm. reflexivity.
Qed.

Lemma materialize_contract_witness :
  (forall d c, buildD3AncestryData None scenarioHorses d c = None)
  /\ (forall horse, buildD3AncestryData horse scenarioHorses 0 0 = None)
  /\ (exists cs,
         buildD3AncestryData (Some horseA) scenarioHorses 5 0
         = Some (mkTreeNode (id horseA) (nome horseA) (raca horseA) (idade horseA)
                   (sexo horseA) (url_imagem horseA) cs)
         /\ (length cs <= 2)%nat
         /\ (pai_id horseA = JNull -> mae_id horseA = JNull -> cs = [])).
Proof. apply (materialize_contract scenarioHorses horseA 5). lia. Defined.

(** How a parent reference is resolved: a reference that is absent resolves
    to nothing; one that is present resolves to the first record of the
    collection whose [id] is strictly equal to it, and to nothing when there
    is none. *)
Lemma lookupParent_absent (allHorses : list Horse) :
  lookupParent allHorses JNull = None.
Proof. reflexivity. Qed.

Lemma lookupParent_dangling (allHorses : list Horse) (ref : JsVal) :
  (forall x, In x allHorses -> strict_eq (id x) ref = false) ->
  lookupParent allHorses ref = None.
Proof.
  intros Hno. unfold lookupParent, findById. destruct (truthy ref); [|reflexivity].
  destruct (find _ allHorses) as [x|] eqn:E; [|reflexivity].
  apply find_some in E as [Hin Heq]. rewrite (Hno x Hin) in Heq. discriminate.
Qed.

Lemma lookupParent_first (allHorses : list Horse) (ref : JsVal) (p : Horse) :
  lookupParent allHorses ref = Some p ->
  exists before after,
    allHorses = before ++ p :: after
    /\ strict_eq (id p) ref = true
    /\ (forall x, In x before -> strict_eq (id x) ref = false).
Proof.
  unfold lookupParent, findById. destruct (truthy ref); [|discriminate].
  induction allHorses as [|y l IH]; simpl; [discriminate|].
  destruct (strict_eq (id y) ref) eqn:E.
  - intros [= ->]. exists [], l. repeat split; [assumption | contradiction].
  - intros H. destruct (IH H) as [b [a [-> [Hp Hb]]]].
    exists (y :: b), a. repeat split; [assumption|].
    intros x [<-|Hin]; [assumption | apply Hb, Hin].
Qed.




(** Both references of C resolve, to A and to B. *)
Example scenario_parents_resolve :
  truthy (pai_id horseC) = true /\ FirstWithId scenarioHorses (pai_id horseC) horseA
  /\ truthy (mae_id horseC) = true /\ FirstWithId scenarioHorses (mae_id horseC) horseB.
Proof.
  repeat split.
  - exists [], [horseB; horseC]. repeat split. intros x [].
  - exists [horseA], [horseC]. repeat split. intros x [<-|[]]. discriminate.
Qed.

(** The scenario of the specification, and a dangling father reference. *)
Example scenario_tree :
  option_map (fun t => map node_id (children t))
    (buildD3AncestryData (Some horseC) scenarioHorses 3 0) = Some [JNum 1; JNum 2]
  /\ option_map (fun t => map children (children t))
       (buildD3AncestryData (Some horseC) scenarioHorses 3 0) = Some [[]; []].
Proof. split; reflexivity. Qed.

Example dangling_father_omitted :
  option_map (fun t => map node_id (children t))
    (buildD3AncestryData (Some orphanRef) (orphanRef :: scenarioHorses) 5 0)
  = Some [JNum 2].
Proof. reflexivity. Qed.

(** The test [horse.pai_id ? ... : null] takes a reference that is falsy for
    an absent one: a record of id 0 (or of the empty string) is never looked
    up. The store assigns no such id. *)
Example falsy_reference_is_absent :
  findById [horseZero; foalOfZero] (pai_id foalOfZero) = Some horseZero
  /\ lookupParent [horseZero; foalOfZero] (pai_id foalOfZero) = None
  /\ option_map children
       (buildD3AncestryData (Some foalOfZero) [horseZero; foalOfZero] 5 0) = Some [].
Proof. repeat split. Qed.

(** * Properties of the registration path *)

(** Unfolds the monadic operations of [addHorse] down to the world. *)
Ltac run_addHorse :=
  unfold handleSubmit, addHorse, addHorse_try, addHorse_catch, uploadPhoto,
    tryCatchFinally, bind, ret, throw, setLoading, setError, setHorses,
    setViewMode, modifyApp, alert, console_error, storage_upload,
    storage_getPublicUrl, db_insert, withBlob in *;
  cbn [fst snd app supabase requests alerts console horses loading error
       viewMode selectedHorseId isSharedView shareMessage cavalos fotos_cavalos] in *.

Lemma addHorse_upload_stage (be : Backend) (uuid : string) (d : NewHorseData)
    (w : World) (message : string) :
  UploadStageFails be uuid d (supabase w) message ->
  let w' := snd (addHorse be uuid d w) in
  FailureReported w w' message
  /\ (forall row, In (ReqInsert row) (requests w') -> In (ReqInsert row) (requests w)).
Proof.
  intros Hfail. destruct Hfail as [file msg Hfile Hup | file Hfile Hup Hurl];
    run_addHorse; rewrite Hfile; run_addHorse; rewrite Hup; run_addHorse.
  - unfold FailureReported. cbn. repeat split.
    intros row [Hin|Hin]; [discriminate | exact Hin].
  - rewrite Hurl. unfold FailureReported. cbn. repeat split.
    intros row [Hin|[Hin|Hin]]; [discriminate | discriminate | exact Hin].
Qed.

Lemma addHorse_insert_stage (be : Backend) (uuid : string) (d : NewHorseData)
    (w : World) (message : string) :
  InsertFails be uuid d (supabase w) message ->
  FailureReported w (snd (addHorse be uuid d w)) message.
Proof.
  intros Hfail.
  destruct Hfail as [msg Hfile Hins | file url msg Hfile Hup Hurl Hins];
    run_addHorse; rewrite Hfile; run_addHorse.
  - rewrite Hins. unfold FailureReported. cbn. repeat split.
  - rewrite Hup. run_addHorse. rewrite Hurl. run_addHorse. rewrite Hins.
    unfold FailureReported. cbn. repeat split.
Qed.

(** Every record [addHorse] sends to the store is built from its argument. *)
Lemma addHorse_inserts (be : Backend) (uuid : string) (d : NewHorseData)
    (w : World) (row : InsertRow) :
  In (ReqInsert row) (requests (snd (addHorse be uuid d w))) ->
  In (ReqInsert row) (requests w) \/ exists photoUrl, row = insertRowOf d photoUrl.
Proof.
  run_addHorse. destruct (data_photoFile d) as [file|]; run_addHorse.
  - destruct (upload_answer be (supabase w) (filePathOf uuid file) file);
      run_addHorse.
    + intros [H|H]; [discriminate | left; exact H].
    + destruct (publicUrlOf _) as [url|]; run_addHorse.
      * destruct (insert_answer be _ _); run_addHorse;
          (intros [H|[H|[H|H]]];
           [injection H as <-; right; eexists; reflexivity
           | discriminate | discriminate | left; exact H]).
      * intros [H|[H|H]]; [discriminate | discriminate | left; exact H].
  - destruct (insert_answer be _ _); run_addHorse;
      (intros [H|H]; [injection H as <-; right; eexists; reflexivity | left; exact H]).
Qed.

Lemma handleSubmit_filled (onAddHorse : NewHorseData -> M unit) (f : FormState)
    (w : World) :
  requiredFilled f = true ->
  handleSubmit onAddHorse f w = (emptyForm, snd (onAddHorse (submittedData f) w)).
Proof.
  unfold requiredFilled, handleSubmit. intros H.
  apply negb_true_iff in H. rewrite H. reflexivity.
Qed.

Lemma handleSubmit_not_filled (onAddHorse : NewHorseData -> M unit) (f : FormState)
    (w : World) :
  requiredFilled f = false ->
  fst (handleSubmit onAddHorse f w) = f
  /\ requests (snd (handleSubmit onAddHorse f w)) = requests w.
Proof.
  unfold requiredFilled, handleSubmit. intros H.
  apply negb_false_iff in H. rewrite H. split; reflexivity.
Qed.

(** C5. With a photo attached, when the upload is refused, or when it goes
    through and no public URL comes back, [addHorse] sends no insert: the
    table of the store and the collection in memory are what they were. *)
Theorem addHorse_upload_failure_writes_nothing (be : Backend) (uuid : string)
    (d : NewHorseData) (photoFile : PhotoFile) (w : World)
    (Hfile : data_photoFile d = Some photoFile)
    (Hfail :
       upload_answer be (supabase w) (filePathOf uuid photoFile) photoFile <> None
       \/ (upload_answer be (supabase w) (filePathOf uuid photoFile) photoFile = None
           /\ publicUrlOf (publicUrl_answer be (withBlob (supabase w) uuid photoFile)
                             (filePathOf uuid photoFile)) = None)) :
  let w' := snd (addHorse be uuid d w) in
  (forall row, In (ReqInsert row) (requests w') -> In (ReqInsert row) (requests w))
  /\ cavalos (supabase w') = cavalos (supabase w)
  /\ horses (app w') = horses (app w)
  /\ exists message,
       alerts w' = String.append "Falha ao adicionar cavalo: " message :: alerts w.
Proof.
  assert (Hstage : exists message, UploadStageFails be uuid d (supabase w) message).
  { destruct Hfail as [Hup|[Hup Hurl]].
    - destruct (upload_answer be (supabase w) (filePathOf uuid photoFile) photoFile)
        as [message|] eqn:E; [|congruence].
      exists message. eapply upload_refused; eassumption.
    - eexists. eapply public_url_missing; eassumption. }
  destruct Hstage as [message Hstage].
  destruct (addHorse_upload_stage be uuid d w message Hstage)
    as [(Halert & _ & _ & _ & Hhorses & Htable) Hreq].
  intros w'. repeat split; try assumption. exists message. exact Halert.
Qed.

Lemma addHorse_upload_failure_writes_nothing_witness :
  let w' := snd (addHorse withoutPublicUrl "u1" (submittedData sampleForm) addWorld) in
  (forall row, In (ReqInsert row) (requests w') -> In (ReqInsert row) (requests addWorld))
  /\ cavalos (supabase w') = cavalos (supabase addWorld)
  /\ horses (app w') = horses (app addWorld)
  /\ exists message,
       alerts w' = String.append "Falha ao adicionar cavalo: " message :: alerts addWorld.
Proof.
  apply (addHorse_upload_failure_writes_nothing withoutPublicUrl "u1"
           (submittedData sampleForm) samplePhoto addWorld).
  - reflexivity.
  - right. split; reflexivity.
Defined.

(** C6, as stated, fails: the upload is refused, and the form that comes out
    of [handleSubmit] is the empty form, not the one that was submitted. *)
Lemma failed_add_clears_form :
  UploadStageFails refusingUploads "u1" (submittedData sampleForm)
    (supabase addWorld) "Bucket not found"
  /\ fst (handleSubmit (addHorse refusingUploads "u1") sampleForm addWorld)
     <> sampleForm.
Proof.
  split.
  - apply (upload_refused _ _ _ _ samplePhoto); reflexivity.
  - vm_compute. discriminate.
Qed.

(** C6, amended. When an add fails at either step, the failure is reported
    (an alert and the error message), [viewMode] stays ['add'] and the
    collection in memory is unchanged; the fields of the form are reset by
    [handleSubmit] all the same. *)
Theorem add_failure_reported_form_reset (be : Backend) (uuid : string)
    (f : FormState) (w : World) (message : string)
    (Hfilled : requiredFilled f = true)
    (Hadd : viewMode (app w) = view_add)
    (Hfail : UploadStageFails be uuid (submittedData f) (supabase w) message
             \/ InsertFails be uuid (submittedData f) (supabase w) message) :
  let f' := fst (handleSubmit (addHorse be uuid) f w) in
  let w' := snd (handleSubmit (addHorse be uuid) f w) in
  alerts w' = String.append "Falha ao adicionar cavalo: " message :: alerts w
  /\ error (app w') = Some (String.append "Falha ao adicionar cavalo: " message)
  /\ viewMode (app w') = view_add
  /\ horses (app w') = horses (app w)
  /\ f' = emptyForm.
Proof.
  rewrite (handleSubmit_filled _ _ _ Hfilled). cbn [fst snd].
  assert (Hrep : FailureReported w (snd (addHorse be uuid (submittedData f) w)) message).
  { destruct Hfail as [Hfail|Hfail].
    - apply addHorse_upload_stage, Hfail.
    - apply addHorse_insert_stage, Hfail. }
  destruct Hrep as (Halert & Herr & _ & Hview & Hhorses & _).
  repeat split; try assumption. congruence.
Qed.

Lemma add_failure_reported_form_reset_witness :
  let f' := fst (handleSubmit (addHorse refusingInserts "u1") sampleForm addWorld) in
  let w' := snd (handleSubmit (addHorse refusingInserts "u1") sampleForm addWorld) in
  alerts w' = String.append "Falha ao adicionar cavalo: " "permission denied"
              :: alerts addWorld
  /\ error (app w') = Some (String.append "Falha ao adicionar cavalo: " "permission denied")
  /\ viewMode (app w') = view_add
  /\ horses (app w') = horses (app addWorld)
  /\ f' = emptyForm.
Proof.
  apply (add_failure_reported_form_reset refusingInserts "u1" sampleForm addWorld
           "permission denied").
  - reflexivity.
  - reflexivity.
  - right. apply (insert_refused_with_photo _ _ _ _ samplePhoto
                    "https://cdn/public/u1.jpg"); reflexivity.
Defined.

(** C9. With no parent selected in either field, the object given to
    [addHorse] has [null] for both references, every record the submission
    sends to the store has [null] in [pai_id] and [mae_id], and when the
    required fields are filled and no photo is attached such a record is
    sent. *)
Theorem no_parent_selected_stores_null (be : Backend) (uuid : string)
    (f : FormState) (w : World)
    (Hfather : form_fatherId f = EmptyString)
    (Hmother : form_motherId f = EmptyString) :
  let w' := snd (handleSubmit (addHorse be uuid) f w) in
  data_fatherId (submittedData f) = JNull
  /\ data_motherId (submittedData f) = JNull
  /\ (forall row, In (ReqInsert row) (requests w') ->
        In (ReqInsert row) (requests w)
        \/ (row_pai_id row = JNull /\ row_mae_id row = JNull))
  /\ (requiredFilled f = true -> form_selectedFile f = None ->
      exists row, requests w' = ReqInsert row :: requests w
                  /\ row_pai_id row = JNull /\ row_mae_id row = JNull).
Proof.
  assert (Hf : data_fatherId (submittedData f) = JNull)
    by (cbn; rewrite Hfather; reflexivity).
  assert (Hm : data_motherId (submittedData f) = JNull)
    by (cbn; rewrite Hmother; reflexivity).
  intros w'. split; [exact Hf|]. split; [exact Hm|]. split.
  - intros row Hin. subst w'. destruct (requiredFilled f) eqn:Efilled.
    + rewrite (handleSubmit_filled _ _ _ Efilled) in Hin. cbn [snd] in Hin.
      apply addHorse_inserts in Hin as [Hin|[photoUrl ->]]; [left; exact Hin|].
      right. split; assumption.
    + destruct (handleSubmit_not_filled (addHorse be uuid) f w Efilled) as [_ Hreq].
      rewrite Hreq in Hin. left. exact Hin.
  - intros Hfilled Hfile. subst w'.
    rewrite (handleSubmit_filled _ _ _ Hfilled). cbn [snd].
    exists (insertRowOf (submittedData f) None).
    split; [|split; assumption].
    run_addHorse. unfold submittedData at 1. cbn [data_photoFile].
    rewrite Hfile. run_addHorse.
    destruct (insert_answer be (supabase w) _); reflexivity.
Qed.

Lemma no_parent_selected_stores_null_witness :
  let w' := snd (handleSubmit (addHorse acceptingAll "u1") sampleFormNoPhoto addWorld) in
  data_fatherId (submittedData sampleFormNoPhoto) = JNull
  /\ data_motherId (submittedData sampleFormNoPhoto) = JNull
  /\ (forall row, In (ReqInsert row) (requests w') ->
        In (ReqInsert row) (requests addWorld)
        \/ (row_pai_id row = JNull /\ row_mae_id row = JNull))
  /\ (requiredFilled sampleFormNoPhoto = true ->
      form_selectedFile sampleFormNoPhoto = None ->
      exists row, requests w' = ReqInsert row :: requests addWorld
                  /\ row_pai_id row = JNull /\ row_mae_id row = JNull).
Proof.
  apply (no_parent_selected_stores_null acceptingAll "u1" sampleFormNoPhoto addWorld);
    reflexivity.
Defined.

(** * Properties of the share link *)

(** C7. The share link of the horse of id ["42"] is the origin followed by
    [/?id=42&shared=true]; the page at that address has the query string
    [?id=42&shared=true], and start-up on it selects id ["42"] in the
    details view with the shared flag set. *)
Theorem share_link_round_trip (origin : string) (horse : Horse) (a : AppState)
    (Hid : id horse = JStr "42") :
  shareUrl origin horse = String.append origin "/?id=42&shared=true"
  /\ location_search "/?id=42&shared=true" = "?id=42&shared=true"
  /\ startup "?id=42&shared=true" a
     = Some (mkAppState (horses a) (loading a) (error a) view_details (JStr "42")
               true (shareMessage a)).
Proof.
  unfold shareUrl. rewrite Hid. repeat split.
Qed.

Lemma share_link_round_trip_witness :
  shareUrl "https://cavalos.example" horse42
  = String.append "https://cavalos.example" "/?id=42&shared=true"
  /\ location_search "/?id=42&shared=true" = "?id=42&shared=true"
  /\ startup "?id=42&shared=true" initialApp
     = Some (mkAppState (horses initialApp) (loading initialApp) (error initialApp)
               view_details (JStr "42") true (shareMessage initialApp)).
Proof.
  apply (share_link_round_trip "https://cavalos.example" horse42 initialApp).
  reflexivity.
Defined.

(** The round trip holds for every id of unreserved characters: the link
    carries the id unchanged, and neither decoding alters it. *)
Lemma unreserved_plain (c : ascii) :
  isUnreserved c = true ->
  c <> "#"%char /\ c <> "&"%char /\ c <> "+"%char /\ c <> "%"%char /\ c <> "="%char
  /\ c <> "?"%char.
Proof.
  destruct c as [[] [] [] [] [] [] [] []]; intros H; try discriminate H;
    repeat split; discriminate.
Qed.

Lemma encodeURIComponent_unreserved (s : string) :
  allUnreserved s = true -> encodeURIComponent s = s.
Proof.
  induction s as [|c s IH]; simpl; [reflexivity|].
  intros H. apply andb_true_iff in H as [Hc Hs]. rewrite Hc, (IH Hs). reflexivity.
Qed.

Lemma upToHash_unreserved (s t : string) :
  allUnreserved s = true -> upToHash (String.append s t) = String.append s (upToHash t).
Proof.
  induction s as [|c s IH]; simpl; [reflexivity|].
  intros H. apply andb_true_iff in H as [Hc Hs].
  destruct (unreserved_plain c Hc) as (Hh & _). rewrite (IH Hs).
  destruct c as [[] [] [] [] [] [] [] []]; try reflexivity. congruence.
Qed.

Lemma splitOn_amp_unreserved (s t : string) :
  allUnreserved s = true ->
  splitOn "&" (String.append s (String "&" t)) = s :: splitOn "&" t.
Proof.
  induction s as [|c s IH]; simpl; [reflexivity|].
  intros H. apply andb_true_iff in H as [Hc Hs].
  destruct (unreserved_plain c Hc) as (_ & Ha & _). rewrite (IH Hs).
  destruct (Ascii.eqb c "&") eqn:E; [apply Ascii.eqb_eq in E; congruence | reflexivity].
Qed.

Lemma formDecode_unreserved (s : string) :
  allUnreserved s = true -> formDecode s = s.
Proof.
  induction s as [|c s IH]; [reflexivity|].
  intros H. simpl in H. apply andb_true_iff in H as [Hc Hs].
  destruct (unreserved_plain c Hc) as (_ & _ & Hplus & Hpct & _).
  specialize (IH Hs).
  destruct c as [[] [] [] [] [] [] [] []]; try congruence;
    cbn [formDecode]; rewrite IH; reflexivity.
Qed.

Lemma decodeURIComponent_unreserved (s : string) :
  allUnreserved s = true -> decodeURIComponent s = Some s.
Proof.
  unfold decodeURIComponent. induction s as [|c s IH]; [reflexivity|].
  intros H. simpl in H. apply andb_true_iff in H as [Hc Hs].
  destruct (unreserved_plain c Hc) as (_ & _ & _ & Hpct & _).
  specialize (IH Hs).
  destruct c as [[] [] [] [] [] [] [] []]; try congruence;
    cbn [decodeEscapes]; rewrite IH; reflexivity.
Qed.

Lemma share_link_round_trip_unreserved (origin : string) (horse : Horse)
    (a : AppState) (s : string) :
  id horse = JStr s -> s <> EmptyString -> allUnreserved s = true ->
  shareUrl origin horse
  = String.append origin (String.append "/?id=" (String.append s "&shared=true"))
  /\ startup (location_search (String.append "/?id=" (String.append s "&shared=true"))) a
     = Some (mkAppState (horses a) (loading a) (error a) view_details (JStr s)
               true (shareMessage a)).
Proof.
  intros Hid Hne Hs. split.
  - unfold shareUrl. rewrite Hid. cbn [toString].
    rewrite (encodeURIComponent_unreserved s Hs). reflexivity.
  - assert (Hsearch :
      location_search (String.append "/?id=" (String.append s "&shared=true"))
      = String.append "?id=" (String.append s "&shared=true")).
    { cbn [String.append location_search upToHash].
      rewrite (upToHash_unreserved s _ Hs). reflexivity. }
    rewrite Hsearch. unfold startup, URLSearchParams.
    cbn [String.append]. cbn [splitOn Ascii.eqb Bool.eqb].
    rewrite (splitOn_amp_unreserved s _ Hs).
    cbn. rewrite (formDecode_unreserved s Hs). cbn.
    change (decodeEscapes 0 s) with (decodeURIComponent s).
    rewrite (decodeURIComponent_unreserved s Hs).
    destruct s as [|c s']; [congruence | reflexivity].
Qed.

(** A numeric id comes back as a string, and an id with a [%] in it does not
    come back: the value is decoded by [URLSearchParams] and again by
    [decodeURIComponent]. *)
Example share_link_numeric_id :
  option_map selectedHorseId
    (startup (location_search (shareUrl EmptyString horseC)) initialApp) = Some (JStr "3").
Proof. reflexivity. Qed.

Example share_link_percent_id :
  option_map selectedHorseId
    (startup (location_search
                (shareUrl EmptyString (mkHorse (JStr "a%41") [] [] None [] None JNull JNull)))
       initialApp) = Some (JStr "aA").
Proof. reflexivity. Qed.

(** * Properties of the text normalisation *)

Lemma isBoundary_In (c : N) : isBoundary c = true -> In c boundaryCodePoints.
Proof.
  unfold isBoundary. intros H. apply existsb_exists in H as [x [Hin Heq]].
  apply N.eqb_eq in Heq. subst x. exact Hin.
Qed.

(** A boundary character is not a letter, and its upper case is itself. *)
Lemma boundary_not_letter (c : N) : isBoundary c = true -> isLetter c = false.
Proof.
  intros H. apply isBoundary_In in H.
  assert (Hall : forallb (fun x => negb (isLetter x)) boundaryCodePoints = true)
    by (vm_compute; reflexivity).
  rewrite forallb_forall in Hall. apply negb_true_iff, Hall, H.
Qed.

Lemma boundary_upper (c : N) : isBoundary c = true -> toUpperCodePoint c = [c].
Proof.
  intros H. apply isBoundary_In in H.
  assert (Hall : Forall (fun x => toUpperCodePoint x = [x]) boundaryCodePoints)
    by (repeat constructor).
  rewrite Forall_forall in Hall. apply Hall, H.
Qed.

Lemma letter_not_boundary (c : N) : isLetter c = true -> isBoundary c = false.
Proof.
  intros H. destruct (isBoundary c) eqn:E; [|reflexivity].
  apply boundary_not_letter in E. congruence.
Qed.

(** Before a character that is not a letter, it does not matter whether a
    segment starts. *)
Lemma spec_capitalizeSegments_nonletter (b : bool) (c : N) (s : ustring) :
  isLetter c = false ->
  spec_capitalizeSegments b (c :: s) = spec_capitalizeSegments false (c :: s).
Proof. intros H. simpl. rewrite H, andb_false_r. reflexivity. Qed.

(** The scan of the regular expression capitalises the letters that start a
    segment: by induction on the length, since a match takes two characters. *)
Lemma replaceMatches_spec :
  forall (n : nat) (s : ustring) (b : bool),
    (length s <= n)%nat ->
    replaceMatches b s = spec_capitalizeSegments b s.
Proof.
  induction n as [|n IH]; intros s b Hlen.
  - destruct s; [reflexivity | simpl in Hlen; lia].
  - destruct s as [|c rest]; [reflexivity|]. simpl in Hlen.
    cbn [replaceMatches spec_capitalizeSegments].
    destruct (isLetter c) eqn:Ec.
    + rewrite (letter_not_boundary c Ec). destruct b; cbn [andb].
      * unfold toUpperCase. cbn [flat_map]. rewrite app_nil_r.
        rewrite IH by lia. reflexivity.
      * rewrite IH by lia. reflexivity.
    + rewrite andb_false_r. destruct (isBoundary c) eqn:Eb.
      * destruct rest as [|l rest']; [reflexivity|].
        simpl in Hlen. destruct (isLetter l) eqn:El.
        -- unfold toUpperCase. cbn [flat_map]. rewrite app_nil_r.
           rewrite (boundary_upper c Eb).
           cbn [spec_capitalizeSegments andb]. rewrite El.
           rewrite (letter_not_boundary l El). rewrite IH by lia. reflexivity.
        -- rewrite IH by (simpl; lia).
           rewrite (spec_capitalizeSegments_nonletter true l rest' El).
           reflexivity.
      * rewrite IH by lia. reflexivity.
Qed.

Lemma capitalizeEachWord_spec (s : ustring) :
  capitalizeEachWord s = spec_normalize (toLowerCase s).
Proof.
  unfold capitalizeEachWord, spec_normalize. destruct s as [|c s]; [reflexivity|].
  apply (replaceMatches_spec (length (toLowerCase (c :: s)))). lia.
Qed.

(** C8, as stated, fails: the name typed [hELLO] is submitted as [Hello],
    and capitalising the first letter of its single segment gives [HELLO]. *)
Lemma submitted_name_not_spec_normalize :
  let f := mkFormState (utext "hELLO") (utext "crioulo") (utext "4") (utext "Macho")
             None None EmptyString EmptyString EmptyString in
  data_name (submittedData f) = utext "Hello"
  /\ spec_normalize (form_name f) = utext "HELLO"
  /\ data_name (submittedData f) <> spec_normalize (form_name f).
Proof. repeat split. vm_compute. discriminate. Qed.

(** The same over any case tables in which no boundary character is a
    letter or has an upper case of its own. *)
Section AnyCaseTables.

Variable T : CaseTables.
Hypothesis lower_empty : toLowerCaseOf T [] = [].
Hypothesis boundary_plain :
  forall b, isBoundary b = true ->
            isLetterOf T b = false /\ toUpperCodePointOf T b = [b].

Lemma replaceMatchesOn_spec :
  forall (n : nat) (s : ustring) (b : bool),
    (length s <= n)%nat ->
    replaceMatchesOn T b s = spec_capitalizeSegmentsOn T b s.
Proof.
  induction n as [|n IH]; intros s b Hlen.
  - destruct s; [reflexivity | simpl in Hlen; lia].
  - destruct s as [|c rest]; [reflexivity|]. simpl in Hlen.
    cbn [replaceMatchesOn spec_capitalizeSegmentsOn].
    destruct (isBoundary c) eqn:Eb.
    + destruct (boundary_plain c Eb) as [Hc Hup]. rewrite Hc, andb_false_r.
      destruct rest as [|l rest']; [reflexivity|].
      simpl in Hlen. destruct (isLetterOf T l) eqn:El.
      * unfold toUpperCaseOn. cbn [flat_map]. rewrite app_nil_r, Hup.
        cbn [spec_capitalizeSegmentsOn andb]. rewrite El.
        assert (Hl : isBoundary l = false).
        { destruct (isBoundary l) eqn:E; [|reflexivity].
          destruct (boundary_plain l E) as [Hno _]. congruence. }
        rewrite Hl, IH by lia. reflexivity.
      * rewrite IH by (simpl; lia).
        cbn [spec_capitalizeSegmentsOn]. rewrite El, !andb_false_r. reflexivity.
    + destruct (b && isLetterOf T c).
      * unfold toUpperCaseOn. cbn [flat_map]. rewrite app_nil_r, IH by lia.
        reflexivity.
      * rewrite IH by lia. reflexivity.
Qed.

Lemma capitalizeEachWordOn_spec (s : ustring) :
  capitalizeEachWordOn T s = spec_normalizeOn T (toLowerCaseOf T s).
Proof.
  unfold capitalizeEachWordOn, spec_normalizeOn. destruct s as [|c s].
  - rewrite lower_empty. reflexivity.
  - apply (replaceMatchesOn_spec (length (toLowerCaseOf T (c :: s)))). lia.
Qed.

End AnyCaseTables.

(** The tables of this file are an instance, and [submittedData] is what
    [handleSubmit] passes at that instance. *)
Lemma latin1_boundary_plain (b : N) :
  isBoundary b = true ->
  isLetterOf latin1Tables b = false /\ toUpperCodePointOf latin1Tables b = [b].
Proof.
  intros Hb. split; [apply boundary_not_letter, Hb | apply boundary_upper, Hb].
Qed.

Lemma spec_capitalizeSegmentsOn_latin1 (s : ustring) :
  forall b, spec_capitalizeSegmentsOn latin1Tables b s = spec_capitalizeSegments b s.
Proof.
  induction s as [|c s IH]; intros b; [reflexivity|].
  cbn [spec_capitalizeSegmentsOn spec_capitalizeSegments latin1Tables isLetterOf
       toUpperCodePointOf].
  rewrite IH. reflexivity.
Qed.

Lemma replaceMatchesOn_latin1 (s : ustring) (b : bool) :
  replaceMatchesOn latin1Tables b s = replaceMatches b s.
Proof.
  rewrite (replaceMatchesOn_spec latin1Tables latin1_boundary_plain (length s))
    by lia.
  rewrite (replaceMatches_spec (length s)) by lia.
  apply spec_capitalizeSegmentsOn_latin1.
Qed.

Lemma submittedData_latin1 (f : FormState) :
  submittedDataOn latin1Tables f = submittedData f.
Proof.
  assert (H : forall s, capitalizeEachWordOn latin1Tables s = capitalizeEachWord s).
  { intros [|c s]; [reflexivity|]. unfold capitalizeEachWordOn, capitalizeEachWord.
    cbn [toLowerCaseOf latin1Tables].
    apply replaceMatchesOn_latin1. }
  unfold submittedDataOn, submittedData. rewrite !H. reflexivity.
Qed.

(** C8, amended. Whatever the case tables of the platform, as long as no
    boundary character is a letter or is changed by [toUpperCase] and the
    lower case of the empty text is empty, the name, the breed and the sex
    given to [addHorse] are, for every text typed, the typed values put in
    lower case and then normalised as the specification says: the first
    character of each segment, when a letter, capitalised. *)
Theorem submitted_text_lowercased_then_normalized (T : CaseTables) (f : FormState)
    (Hempty : toLowerCaseOf T [] = [])
    (Hboundary : forall b, isBoundary b = true ->
                           isLetterOf T b = false /\ toUpperCodePointOf T b = [b]) :
  data_name (submittedDataOn T f)
  = spec_normalizeOn T (toLowerCaseOf T (form_name f))
  /\ data_breed (submittedDataOn T f)
     = spec_normalizeOn T (toLowerCaseOf T (form_breed f))
  /\ data_sex (submittedDataOn T f)
     = spec_normalizeOn T (toLowerCaseOf T (form_sex f)).
Proof. repeat split; apply capitalizeEachWordOn_spec; assumption. Qed.

Lemma submitted_text_lowercased_then_normalized_witness :
  data_name (submittedDataOn latin1Tables sampleForm)
  = spec_normalizeOn latin1Tables (toLowerCaseOf latin1Tables (form_name sampleForm))
  /\ data_breed (submittedDataOn latin1Tables sampleForm)
     = spec_normalizeOn latin1Tables (toLowerCaseOf latin1Tables (form_breed sampleForm))
  /\ data_sex (submittedDataOn latin1Tables sampleForm)
     = spec_normalizeOn latin1Tables (toLowerCaseOf latin1Tables (form_sex sampleForm)).
Proof.
  apply (submitted_text_lowercased_then_normalized latin1Tables sampleForm).
  - reflexivity.
  - exact latin1_boundary_plain.
Defined.

(** C10, as stated, fails on the sharp s (U+00DF): its upper case is [SS],
    which a second pass turns into [Ss]. *)
Lemma capitalizeEachWord_not_idempotent :
  capitalizeEachWord [223%N] = utext "SS"
  /\ capitalizeEachWord (capitalizeEachWord [223%N]) = utext "Ss"
  /\ capitalizeEachWord (capitalizeEachWord [223%N]) <> capitalizeEachWord [223%N].
Proof. repeat split. vm_compute. discriminate. Qed.

Lemma latin1_enumerated (c : N) : (c < 256)%N -> In c latin1CodePoints.
Proof.
  intros H. unfold latin1CodePoints. rewrite <- (N2Nat.id c).
  apply in_map, in_seq. lia.
Qed.

(** What holds of the lower case [l] of a character of the range: it is its
    own lower case, it is the sharp s or is stable, and it is a boundary or
    the sharp s exactly when the character is. *)
Lemma latin1_lower_facts (c : N) :
  (c < 256)%N ->
  toLowerCodePoint (toLowerCodePoint c) = toLowerCodePoint c
  /\ (toLowerCodePoint c = 223%N \/ stableCodePoint (toLowerCodePoint c) = true)
  /\ isBoundary (toLowerCodePoint c) = isBoundary c
  /\ (toLowerCodePoint c =? 223)%N = (c =? 223)%N.
Proof.
  intros Hc.
  assert (Hall : forallb
            (fun x =>
               (toLowerCodePoint (toLowerCodePoint x) =? toLowerCodePoint x)%N
               && ((toLowerCodePoint x =? 223)%N || stableCodePoint (toLowerCodePoint x))
               && Bool.eqb (isBoundary (toLowerCodePoint x)) (isBoundary x)
               && Bool.eqb (toLowerCodePoint x =? 223)%N (x =? 223)%N)
            latin1CodePoints = true) by (vm_compute; reflexivity).
  rewrite forallb_forall in Hall. specialize (Hall c (latin1_enumerated c Hc)).
  apply andb_true_iff in Hall as [Hall H4]. apply andb_true_iff in Hall as [Hall H3].
  apply andb_true_iff in Hall as [H1 H2].
  apply N.eqb_eq in H1. apply Bool.eqb_prop in H3. apply Bool.eqb_prop in H4.
  apply orb_true_iff in H2. repeat split; try assumption.
  destruct H2 as [H2|H2]; [left; apply N.eqb_eq, H2 | right; exact H2].
Qed.

Lemma segmentStartsWith_lower (s : ustring) :
  Forall (fun c => (c < 256)%N) s ->
  forall b, segmentStartsWith 223 b (toLowerCase s) = segmentStartsWith 223 b s.
Proof.
  induction 1 as [|c s Hc Hs IH]; intros b; [reflexivity|].
  destruct (latin1_lower_facts c Hc) as (_ & _ & Hb & H223).
  cbn [toLowerCase map segmentStartsWith]. rewrite Hb, H223.
  f_equal. apply IH.
Qed.

Lemma lowered_text (s : ustring) :
  Forall (fun c => (c < 256)%N) s -> Forall lowered (toLowerCase s).
Proof.
  intros Hs. unfold toLowerCase. apply Forall_map.
  eapply Forall_impl; [|exact Hs]. intros c Hc.
  destruct (latin1_lower_facts c Hc) as (H1 & H2 & _). split; assumption.
Qed.

(** The head of the second pass, for a character other than a sharp s that
    starts a segment. *)
Lemma second_pass_head (l : N) (b : bool) (ls : ustring) :
  lowered l -> (b && (l =? 223)%N) = false ->
  exists (out : ustring),
    out <> []
    /\ spec_capitalizeSegments b (l :: ls)
       = out ++ spec_capitalizeSegments (isBoundary l) ls
    /\ (forall Y,
          spec_capitalizeSegments b (toLowerCase (out ++ Y))
          = out ++ spec_capitalizeSegments (isBoundary l) (toLowerCase Y)).
Proof.
  intros [Hlow Hst] Hno.
  destruct (isLetter l) eqn:El.
  - destruct b; cbn [andb] in Hno.
    + apply N.eqb_neq in Hno. destruct Hst as [Hst|Hst]; [contradiction|].
      unfold stableCodePoint in Hst. apply andb_true_iff in Hst as [_ Hup].
      rewrite El in Hup.
      destruct (toUpperCodePoint l) as [|u [|? ?]] eqn:Eu; try discriminate.
      apply andb_true_iff in Hup as [Hlet Hround].
      destruct (toUpperCodePoint (toLowerCodePoint u)) as [|u' [|? ?]] eqn:Eu';
        try discriminate.
      apply N.eqb_eq in Hround. subst u'.
      exists [u]. split; [discriminate|]. split.
      * cbn [spec_capitalizeSegments andb]. rewrite El, Eu. reflexivity.
      * intros Y. cbn [Datatypes.app toLowerCase map spec_capitalizeSegments andb].
        rewrite Hlet, Eu', (letter_not_boundary _ Hlet), (letter_not_boundary _ El).
        reflexivity.
    + exists [l]. split; [discriminate|]. split; [reflexivity|].
      intros Y. cbn [Datatypes.app toLowerCase map spec_capitalizeSegments andb].
      rewrite Hlow. reflexivity.
  - exists [l]. split; [discriminate|]. split.
    + cbn [spec_capitalizeSegments]. rewrite El, andb_false_r. reflexivity.
    + intros Y. cbn [Datatypes.app toLowerCase map spec_capitalizeSegments].
      rewrite Hlow, El, andb_false_r. reflexivity.
Qed.

(** A second pass leaves the text as it is when no segment starts with a
    sharp s, and changes it when one does. *)
Lemma second_pass_fixed :
  forall (ls : ustring) (b : bool),
    Forall lowered ls -> segmentStartsWith 223 b ls = false ->
    spec_capitalizeSegments b (toLowerCase (spec_capitalizeSegments b ls))
    = spec_capitalizeSegments b ls.
Proof.
  induction ls as [|l ls IH]; intros b Hall Hno; [reflexivity|].
  inversion Hall as [|? ? Hl Hls]; subst.
  cbn [segmentStartsWith] in Hno. apply orb_false_iff in Hno as [Hhead Htail].
  destruct (second_pass_head l b ls Hl Hhead) as [out [_ [-> Hsecond]]].
  rewrite Hsecond. f_equal. apply IH; assumption.
Qed.

Lemma second_pass_moves :
  forall (ls : ustring) (b : bool),
    Forall lowered ls -> segmentStartsWith 223 b ls = true ->
    spec_capitalizeSegments b (toLowerCase (spec_capitalizeSegments b ls))
    <> spec_capitalizeSegments b ls.
Proof.
  induction ls as [|l ls IH]; intros b Hall Hyes; [discriminate|].
  inversion Hall as [|? ? Hl Hls]; subst.
  cbn [segmentStartsWith] in Hyes.
  destruct (b && (l =? 223)%N) eqn:Hhead.
  - apply andb_true_iff in Hhead as [-> H223]. apply N.eqb_eq in H223. subst l.
    intros Heq. vm_compute in Heq. discriminate.
  - cbn [orb] in Hyes.
    destruct (second_pass_head l b ls Hl Hhead) as [out [_ [-> Hsecond]]].
    rewrite Hsecond. intros Heq. apply app_inv_head in Heq.
    exact (IH _ Hls Hyes Heq).
Qed.

(** C10, amended. On text of Basic Latin and Latin-1 Supplement characters,
    [capitalizeEachWord] applied twice gives what it gives applied once
    exactly when no segment of the text starts with a sharp s (U+00DF); a
    sharp s elsewhere does no harm. *)
Theorem capitalizeEachWord_idempotent_latin1 (s : ustring)
    (Hs : Forall (fun c => (c < 256)%N) s) :
  capitalizeEachWord (capitalizeEachWord s) = capitalizeEachWord s
  <-> segmentStartsWith 223 true s = false.
Proof.
  rewrite !capitalizeEachWord_spec. unfold spec_normalize.
  rewrite <- (segmentStartsWith_lower s Hs true).
  pose proof (lowered_text s Hs) as Hlow.
  split.
  - intros Heq.
    destruct (segmentStartsWith 223 true (toLowerCase s)) eqn:E; [|reflexivity].
    exfalso. exact (second_pass_moves _ true Hlow E Heq).
  - apply second_pass_fixed, Hlow.
Qed.

(** The text [strasse weiss] written with sharp s: none starts a segment. *)
Lemma capitalizeEachWord_idempotent_latin1_witness :
  capitalizeEachWord
    (capitalizeEachWord [115; 116; 114; 97; 223; 101; 32; 119; 101; 105; 223]%N)
  = capitalizeEachWord [115; 116; 114; 97; 223; 101; 32; 119; 101; 105; 223]%N
  <-> segmentStartsWith 223 true
        [115; 116; 114; 97; 223; 101; 32; 119; 101; 105; 223]%N = false.
Proof.
  apply capitalizeEachWord_idempotent_latin1.
  repeat (constructor; [reflexivity|]). constructor.
Defined.

Example capitalizeEachWord_portuguese :
  capitalizeEachWord [106; 111; 195; 79; 32; 100; 39; 225; 118; 73; 76; 65]%N
  = [74; 111; 227; 111; 32; 68; 39; 193; 118; 105; 108; 97]%N.
Proof. reflexivity. Qed.

(** * Further properties of the ancestry tree *)

Lemma build_null_at_bound (horse : option Horse) (allHorses : list Horse)
    (maxDepth currentDepth : Z) :
  maxDepth <= currentDepth ->
  buildD3AncestryData horse allHorses maxDepth currentDepth = None.
Proof.
  intros H. destruct horse as [h|]; simp buildD3AncestryData; [|reflexivity].
  destruct (Z_ge_dec currentDepth maxDepth); [reflexivity | lia].
Qed.

(** X1. The result depends on [maxDepth] and [currentDepth] through their
    difference only: moving both by the same amount changes nothing. *)
Theorem build_shift_invariant (horse : option Horse) (allHorses : list Horse)
    (maxDepth currentDepth k : Z) :
  buildD3AncestryData horse allHorses (maxDepth + k) (currentDepth + k)
  = buildD3AncestryData horse allHorses maxDepth currentDepth.
Proof.
  destruct (Z_lt_dec currentDepth maxDepth) as [Hlt|Hge].
  - destruct horse as [h|]; [|simp buildD3AncestryData; reflexivity].
    rewrite (build_generations allHorses (maxDepth + k)
               (Z.to_nat (maxDepth - currentDepth - 1)) h (currentDepth + k))
      by (try f_equal; lia).
    rewrite (build_generations allHorses maxDepth
               (Z.to_nat (maxDepth - currentDepth - 1)) h currentDepth)
      by (try f_equal; lia).
    reflexivity.
  - rewrite !build_null_at_bound by lia. reflexivity.
Qed.

Lemma truncate_generations (allHorses : list Horse) :
  forall n k h,
    truncate n (generations allHorses (n + k) h) = generations allHorses n h.
Proof.
  induction n as [|n IH]; intros k h.
  - destruct k; reflexivity.
  - cbn [Nat.add generations truncate children node_id node_name node_breed
         node_age node_sex node_photoUrl].
    rewrite map_map. f_equal. apply map_ext. intros p. apply IH.
Qed.

(** X2. A larger [maxDepth] only adds generations: the tree for depth [d]
    is the tree for any depth [d' >= d] cut after [d] generations. *)
Theorem deeper_tree_extends (allHorses : list Horse) (h : Horse) (d d' : Z)
    (Hd : 1 <= d) (Hle : d <= d') :
  exists t t',
    buildD3AncestryData (Some h) allHorses d 0 = Some t
    /\ buildD3AncestryData (Some h) allHorses d' 0 = Some t'
    /\ truncate (Z.to_nat (d - 1)) t' = t.
Proof.
  exists (generations allHorses (Z.to_nat (d - 1)) h),
         (generations allHorses (Z.to_nat (d' - 1)) h).
  split; [apply build_generations; [f_equal|]; lia|].
  split; [apply build_generations; [f_equal|]; lia|].
  replace (Z.to_nat (d' - 1)) with (Z.to_nat (d - 1) + Z.to_nat (d' - d))%nat by lia.
  apply truncate_generations.
Qed.

Lemma deeper_tree_extends_witness :
  exists t t',
    buildD3AncestryData (Some cycRoot) cyclicHorses 2 0 = Some t
    /\ buildD3AncestryData (Some cycRoot) cyclicHorses 5 0 = Some t'
    /\ truncate (Z.to_nat (2 - 1)) t' = t.
Proof. apply (deeper_tree_extends cyclicHorses cycRoot 2 5); lia. Defined.

Lemma NoDup_map_injective {A B : Type} (f : A -> B) (l : list A) (x y : A) :
  NoDup (map f l) -> In x l -> In y l -> f x = f y -> x = y.
Proof.
  induction l as [|a l IH]; simpl; [contradiction|].
  intros Hnd Hx Hy Hf. inversion Hnd as [|? ? Hnotin Hnd']; subst.
  destruct Hx as [->|Hx], Hy as [->|Hy].
  - reflexivity.
  - exfalso. apply Hnotin. rewrite Hf. apply in_map, Hy.
  - exfalso. apply Hnotin. rewrite <- Hf. apply in_map, Hx.
  - apply IH; assumption.
Qed.

Lemma findById_permutation (l l' : list Horse) (key : JsVal) :
  NoDup (map id l) -> Permutation l l' -> findById l key = findById l' key.
Proof.
  intros Hnd Hperm.
  destruct (findById l key) as [x|] eqn:Ex, (findById l' key) as [y|] eqn:Ey.
  - apply findById_In in Ex as [Hx Hidx]. apply findById_In in Ey as [Hy Hidy].
    f_equal. apply (NoDup_map_injective id l); try assumption.
    + eapply Permutation_in; [apply Permutation_sym, Hperm | exact Hy].
    + congruence.
  - apply findById_In in Ex as [Hx Hidx]. unfold findById in Ey.
    pose proof (find_none _ _ Ey x (Permutation_in _ Hperm Hx)) as Hno.
    cbn in Hno. subst key. rewrite (proj2 (strict_eq_eq _ _) eq_refl) in Hno.
    discriminate.
  - apply findById_In in Ey as [Hy Hidy]. unfold findById in Ex.
    pose proof (find_none _ _ Ex y
                  (Permutation_in _ (Permutation_sym Hperm) Hy)) as Hno.
    cbn in Hno. subst key. rewrite (proj2 (strict_eq_eq _ _) eq_refl) in Hno.
    discriminate.
  - reflexivity.
Qed.

Lemma generations_permutation (l l' : list Horse) :
  NoDup (map id l) -> Permutation l l' ->
  forall n h, generations l n h = generations l' n h.
Proof.
  intros Hnd Hperm.
  assert (Hparents : forall h, parentsOf l h = parentsOf l' h).
  { intros h. unfold parentsOf, lookupParent.
    rewrite !(findById_permutation l l' _ Hnd Hperm). reflexivity. }
  induction n as [|n IH]; intros h; [reflexivity|].
  cbn [generations]. rewrite Hparents. f_equal. apply map_ext, IH.
Qed.

(** X3. When the ids of the collection are pairwise different, the tree does
    not depend on the order of the collection (the list view sorts the array
    it is given). *)
Theorem build_order_independent (horse : option Horse) (allHorses allHorses' : list Horse)
    (maxDepth currentDepth : Z)
    (Hunique : NoDup (map id allHorses))
    (Hperm : Permutation allHorses allHorses') :
  buildD3AncestryData horse allHorses maxDepth currentDepth
  = buildD3AncestryData horse allHorses' maxDepth currentDepth.
Proof.
  destruct (Z_lt_dec currentDepth maxDepth) as [Hlt|Hge].
  - destruct horse as [h|]; [|simp buildD3AncestryData; reflexivity].
    rewrite !(build_generations _ maxDepth
                (Z.to_nat (maxDepth - currentDepth - 1)) h currentDepth)
      by (try f_equal; lia).
    f_equal. apply generations_permutation; assumption.
  - rewrite !build_null_at_bound by lia. reflexivity.
Qed.

Lemma build_order_independent_witness :
  buildD3AncestryData (Some horseC) [horseA; horseB; horseC] 5 0
  = buildD3AncestryData (Some horseC) [horseC; horseB; horseA] 5 0.
Proof.
  apply build_order_independent.
  - repeat constructor; simpl; intuition discriminate.
  - apply Permutation_rev.
Defined.

Lemma parentsOf_In (allHorses : list Horse) (h p : Horse) :
  In p (parentsOf allHorses h) ->
  In p allHorses /\ (id p = pai_id h \/ id p = mae_id h).
Proof.
  unfold parentsOf. intros Hin. apply in_app_or in Hin as [Hin|Hin].
  - destruct (lookupParent allHorses (pai_id h)) as [f|] eqn:E; [|contradiction].
    destruct Hin as [<-|[]]. apply lookupParent_In in E as [Hin Hid]. auto.
  - destruct (lookupParent allHorses (mae_id h)) as [m|] eqn:E; [|contradiction].
    destruct Hin as [<-|[]]. apply lookupParent_In in E as [Hin Hid]. auto.
Qed.

Lemma descendants_generations (allHorses : list Horse) :
  forall n h x,
    In x (descendants (generations allHorses n h)) ->
    exists r, (r = h \/ In r allHorses) /\ showsHorse r x.
Proof.
  induction n as [|n IH]; intros h x Hx.
  - destruct Hx as [<-|[]]. exists h. split; [left; reflexivity|].
    repeat split.
  - cbn [generations descendants] in Hx. destruct Hx as [<-|Hx].
    + exists h. split; [left; reflexivity|]. repeat split.
    + apply in_flat_map in Hx as [t [Ht Hx]].
      apply in_map_iff in Ht as [p [<- Hp]].
      destruct (IH p x Hx) as [r [Hr Hshow]]. exists r. split; [|exact Hshow].
      right. destruct Hr as [->|Hr]; [apply (parentsOf_In allHorses h p Hp) | exact Hr].
Qed.

Lemma build_descendants_records (allHorses : list Horse) (h : Horse)
    (maxDepth : Z) (t x : TreeNode) :
  buildD3AncestryData (Some h) allHorses maxDepth 0 = Some t ->
  In x (descendants t) ->
  exists r, (r = h \/ In r allHorses) /\ showsHorse r x.
Proof.
  intros Hbuild Hx. destruct (Z_lt_dec 0 maxDepth) as [Hlt|Hge].
  - rewrite (build_generations allHorses maxDepth (Z.to_nat (maxDepth - 0 - 1)) h 0)
      in Hbuild by (try reflexivity; lia).
    injection Hbuild as <-. eapply descendants_generations, Hx.
  - rewrite build_null_at_bound in Hbuild by lia. discriminate.
Qed.

(** X4. Every node of the tree shows a record: the root, or a record of the
    collection, with its id, name, breed, age, sex and photo. No node is made
    up, and none is a placeholder. *)
Theorem tree_nodes_show_records (allHorses : list Horse) (h : Horse)
    (maxDepth : Z) (t x : TreeNode)
    (Hbuild : buildD3AncestryData (Some h) allHorses maxDepth 0 = Some t)
    (Hx : In x (descendants t)) :
  exists r, (r = h \/ In r allHorses) /\ showsHorse r x.
Proof. eapply build_descendants_records; eassumption. Qed.

Lemma tree_nodes_show_records_witness :
  exists r, (r = horseC \/ In r scenarioHorses)
            /\ showsHorse r (generations scenarioHorses 0 horseB).
Proof.
  apply (tree_nodes_show_records scenarioHorses horseC 2
           (generations scenarioHorses 1 horseC)).
  - reflexivity.
  - right. right. left. reflexivity.
Defined.

(** X5. The tree of [LineageTreeD3] is there whenever the root is: with
    [maxGeneration] at 5 the call returns [null] for an absent root only, so
    the text drawn in place of a tree is never shown for a root that
    exists, ancestors or not. *)
Theorem treeData_null_iff_root_absent (rootHorse : option Horse)
    (allHorses : list Horse) :
  treeData rootHorse allHorses = None <-> rootHorse = None.
Proof.
  unfold treeData, maxGeneration. split.
  - destruct rootHorse as [h|]; [|reflexivity].
    rewrite (build_generations allHorses 5 4 h 0) by (try reflexivity; lia).
    discriminate.
  - intros ->. simp buildD3AncestryData. reflexivity.
Qed.

Lemma findById_truthy (allHorses : list Horse) (ref : JsVal) :
  idsTruthy allHorses -> lookupParent allHorses ref = findById allHorses ref.
Proof.
  intros Hids. unfold lookupParent. destruct (truthy ref) eqn:E; [reflexivity|].
  destruct (findById allHorses ref) as [x|] eqn:Ex; [|reflexivity].
  apply findById_In in Ex as [Hin Hid]. specialize (Hids x Hin).
  rewrite Hid in Hids. congruence.
Qed.

(** X6. When every id of the collection is truthy, the parents of the tree
    are those of the details page: the names of the children of the root are
    the names [getParentName] finds for the father and for the mother, in
    that order, a parent that is not found being left out. *)
Theorem tree_parents_match_details (allHorses : list Horse) (h : Horse)
    (maxDepth : Z) (t : TreeNode)
    (Hids : idsTruthy allHorses)
    (Hd : 2 <= maxDepth)
    (Hbuild : buildD3AncestryData (Some h) allHorses maxDepth 0 = Some t) :
  map node_name (children t)
  = dropNull [getParentName allHorses (pai_id h); getParentName allHorses (mae_id h)].
Proof.
  rewrite (build_generations allHorses maxDepth (Z.to_nat (maxDepth - 0 - 1)) h 0)
    in Hbuild by (try reflexivity; lia).
  injection Hbuild as <-.
  destruct (Z.to_nat (maxDepth - 0 - 1)) as [|n] eqn:En; [lia|].
  cbn [generations children]. rewrite map_map. unfold parentsOf, getParentName.
  rewrite !(findById_truthy allHorses _ Hids).
  destruct (findById allHorses (pai_id h)), (findById allHorses (mae_id h));
    destruct n; reflexivity.
Qed.

Lemma tree_parents_match_details_witness :
  map node_name (children (generations scenarioHorses 4 horseC))
  = dropNull [getParentName scenarioHorses (pai_id horseC);
              getParentName scenarioHorses (mae_id horseC)].
Proof.
  apply (tree_parents_match_details scenarioHorses horseC 5).
  - intros x [<-|[<-|[<-|[]]]]; reflexivity.
  - lia.
  - reflexivity.
Defined.

(** * Further properties of loading and navigation *)

(** Unfolds [fetchHorses] down to the world. *)
Ltac run_fetchHorses :=
  unfold fetchHorses, tryCatchFinally, bind, ret, throw, setLoading, setError,
    setHorses, modifyApp, console_error in *;
  cbn [fst snd app supabase requests alerts console horses loading error
       viewMode selectedHorseId isSharedView shareMessage] in *.

Lemma fetchHorses_world (select_answer : Supabase -> string + list Horse) (w : World) :
  snd (fetchHorses select_answer w)
  = match select_answer (supabase w) with
    | inr data =>
        mkWorld (mkAppState data false None (viewMode (app w))
                   (selectedHorseId (app w)) (isSharedView (app w))
                   (shareMessage (app w)))
          (supabase w) (requests w) (alerts w) (console w)
    | inl message =>
        mkWorld (mkAppState (horses (app w)) false
                   (Some "Falha ao carregar cavalos. Verifique sua conexão ou configurações do Supabase.")
                   (viewMode (app w)) (selectedHorseId (app w))
                   (isSharedView (app w)) (shareMessage (app w)))
          (supabase w) (requests w) (alerts w)
          (String.append "Erro ao buscar cavalos: " message :: console w)
    end.
Proof.
  run_fetchHorses. destruct (select_answer (supabase w)); reflexivity.
Qed.

(** X7. A fetch that fails keeps the collection and the place in the
    navigation, and the error panel is what is rendered; a retry that succeeds
    replaces the collection, clears the error and renders the view the user
    was in. *)
Theorem fetch_failure_then_retry
    (failing answering : Supabase -> string + list Horse) (w : World)
    (message : string) (data : list Horse)
    (Hfail : failing (supabase w) = inl message)
    (Hretry : answering (supabase w) = inr data) :
  let w1 := snd (fetchHorses failing w) in
  let w2 := snd (fetchHorses answering w1) in
  content (app w1)
  = ErrorPanel "Falha ao carregar cavalos. Verifique sua conexão ou configurações do Supabase."
  /\ horses (app w1) = horses (app w)
  /\ app w2 = mkAppState data false None (viewMode (app w))
                (selectedHorseId (app w)) (isSharedView (app w))
                (shareMessage (app w))
  /\ supabase w2 = supabase w.
Proof.
  intros w1 w2. subst w2 w1. rewrite !fetchHorses_world. rewrite Hfail.
  cbn [supabase app]. rewrite Hretry. repeat split.
Qed.

Lemma fetch_failure_then_retry_witness :
  let w1 := snd (fetchHorses (fun _ => inl "network") addWorld) in
  let w2 := snd (fetchHorses (fun store => inr (cavalos store)) w1) in
  content (app w1)
  = ErrorPanel "Falha ao carregar cavalos. Verifique sua conexão ou configurações do Supabase."
  /\ horses (app w1) = horses (app addWorld)
  /\ app w2 = mkAppState scenarioHorses false None (viewMode (app addWorld))
                (selectedHorseId (app addWorld)) (isSharedView (app addWorld))
                (shareMessage (app addWorld))
  /\ supabase w2 = supabase addWorld.
Proof.
  apply (fetch_failure_then_retry (fun _ => inl "network")
           (fun store => inr (cavalos store)) addWorld "network" scenarioHorses);
    reflexivity.
Defined.

Lemma findById_of_member (l : list Horse) (h : Horse) :
  In h l -> exists h', findById l (id h) = Some h' /\ In h' l /\ id h' = id h.
Proof.
  intros Hin. destruct (findById l (id h)) as [h'|] eqn:E.
  - exists h'. apply findById_In in E as [Hin' Hid]. auto.
  - unfold findById in E. pose proof (find_none _ _ E h Hin) as Hno. cbn in Hno.
    rewrite (proj2 (strict_eq_eq _ _) eq_refl) in Hno. discriminate.
Qed.

Lemma content_after_select (a : AppState) (i : JsVal) (h : Horse) :
  loading a = false ->
  (forall c m, error a <> Some (String c m)) ->
  findById (horses a) i = Some h ->
  content (act (SelectHorse i) a) = HorseDetailView h false.
Proof.
  intros Hload Herr Hfind. unfold content, act, goToHorseDetails.
  cbn [loading error viewMode horses selectedHorseId isSharedView].
  rewrite Hload, Hfind.
  destruct (error a) as [[|c m]|]; try reflexivity.
  exfalso. apply (Herr c m). reflexivity.
Qed.

(** X8. Every horse the user can select, from an item of the list or from a
    node of the tree, is found: the selection renders the details of a record
    of the collection with the id selected, never the panel of a horse not
    found, and the view is not a shared one. *)
Theorem offered_selection_is_found (a : AppState) (i : JsVal)
    (Hoffered : In (SelectHorse i) (actions a)) :
  exists h,
    In h (horses a) /\ id h = i
    /\ content (act (SelectHorse i) a) = HorseDetailView h false.
Proof.
  assert (Hmember : exists r, In r (horses a) /\ id r = i
                              /\ loading a = false
                              /\ (forall c m, error a <> Some (String c m))).
  { unfold actions, content in Hoffered.
    destruct (loading a) eqn:Hload; [contradiction|].
    assert (Herr : forall x, (forall c m, x <> Some (String c m))
                             \/ exists c m, x = Some (String c m)).
    { intros [[|c m]|]; [left | right | left]; try (intros; discriminate).
      eexists _, _. reflexivity. }
    destruct (Herr (error a)) as [Hnone|[c [m Hsome]]].
    2:{ rewrite Hsome in Hoffered. contradiction. }
    assert (Hview :
      In (SelectHorse i)
        match
          match viewMode a with
          | view_list => HorseListView (horses a)
          | view_details =>
              match findById (horses a) (selectedHorseId a) with
              | Some horse => HorseDetailView horse (isSharedView a)
              | None => NotFoundPanel
              end
          | view_add => HorseFormView
          | view_lineageTree =>
              LineageTreeView (findById (horses a) (selectedHorseId a))
          end
        with
        | LoadingPanel => []
        | ErrorPanel _ => []
        | HorseListView hs => AddHorseClicked :: map (fun h => SelectHorse (id h)) hs
        | HorseDetailView _ shared => if shared then [] else [ViewLineage; BackToList]
        | NotFoundPanel => [NotFoundBack]
        | HorseFormView => [CancelAdd]
        | LineageTreeView rootHorse =>
            BackToDetails ::
            match rootHorse with
            | Some root =>
                match treeData (Some root) (horses a) with
                | Some t => map (fun n => SelectHorse (node_id n)) (descendants t)
                | None => []
                end
            | None => []
            end
        end).
    { destruct (error a) as [[|c m]|]; try exact Hoffered.
      exfalso. apply (Hnone c m). reflexivity. }
    clear Hoffered.
    destruct (viewMode a).
    - destruct Hview as [Hx|Hx]; [discriminate|].
      apply in_map_iff in Hx as [r [Heq Hr]]. injection Heq as <-.
      exists r. auto.
    - destruct (findById (horses a) (selectedHorseId a)) as [hd|].
      + destruct (isSharedView a); [contradiction|].
        destruct Hview as [Hx|[Hx|[]]]; discriminate.
      + destruct Hview as [Hx|[]]. discriminate.
    - destruct Hview as [Hx|[]]. discriminate.
    - destruct (findById (horses a) (selectedHorseId a)) as [root|] eqn:Eroot.
      2:{ destruct Hview as [Hx|[]]. discriminate. }
      destruct Hview as [Hx|Hx]; [discriminate|].
      destruct (treeData (Some root) (horses a)) as [t|] eqn:Et; [|contradiction].
      apply in_map_iff in Hx as [n [Heq Hn]]. injection Heq as <-.
      unfold treeData in Et.
      destruct (build_descendants_records (horses a) root maxGeneration t n Et Hn)
        as [r [Hr Hshow]].
      exists r. apply findById_In in Eroot as [Hroot _].
      destruct Hshow as [Hid _]. repeat split; auto.
      destruct Hr as [->|Hr]; assumption. }
  destruct Hmember as [r [Hr [Hid [Hload Herr]]]]. subst i.
  destruct (findById_of_member (horses a) r Hr) as [h [Hfind [Hin Hidh]]].
  exists h. repeat split; try assumption.
  apply content_after_select; assumption.
Qed.

Lemma offered_selection_is_found_witness :
  exists h,
    In h (horses (loadedApp scenarioHorses)) /\ id h = JNum 3
    /\ content (act (SelectHorse (JNum 3)) (loadedApp scenarioHorses))
       = HorseDetailView h false.
Proof.
  apply (offered_selection_is_found (loadedApp scenarioHorses) (JNum 3)).
  simpl. right. right. right. left. reflexivity.
Defined.

(** [addHorse] and [fetchHorses] leave the selection and the shared flag as
    they are. *)
Lemma addHorse_keeps_selection (be : Backend) (uuid : string) (d : NewHorseData)
    (w : World) :
  selectedHorseId (app (snd (addHorse be uuid d w))) = selectedHorseId (app w)
  /\ isSharedView (app (snd (addHorse be uuid d w))) = isSharedView (app w).
Proof.
  run_addHorse. destruct (data_photoFile d) as [file|]; run_addHorse.
  - destruct (upload_answer be (supabase w) (filePathOf uuid file) file);
      run_addHorse; [split; reflexivity|].
    destruct (publicUrlOf _); run_addHorse; [|split; reflexivity].
    destruct (insert_answer be _ _); split; reflexivity.
  - destruct (insert_answer be _ _); split; reflexivity.
Qed.

Lemma step_shared (e : Step) (w : World) :
  isSharedView (app (step e w)) = true ->
  isSharedView (app w) = true
  /\ selectedHorseId (app (step e w)) = selectedHorseId (app w).
Proof.
  destruct e as [x|select_answer|be uuid d]; cbn [step].
  - destruct x; cbn; intros H; try discriminate; auto.
  - rewrite fetchHorses_world. destruct (select_answer (supabase w)); cbn; auto.
  - destruct (addHorse_keeps_selection be uuid d w) as [-> ->]. auto.
Qed.

(** X9. Nothing that happens after start-up sets the shared flag, and while
    it is set the selection does not change: a shared view only ever shows
    the horse of the link the page was opened with. *)
Theorem shared_view_shows_linked_horse (es : list Step) (w : World)
    (Hshared : isSharedView (app (run es w)) = true) :
  isSharedView (app w) = true
  /\ selectedHorseId (app (run es w)) = selectedHorseId (app w).
Proof.
  revert w Hshared. induction es as [|e es IH]; intros w Hshared.
  - split; [exact Hshared | reflexivity].
  - change (run (e :: es) w) with (run es (step e w)) in *.
    destruct (IH (step e w) Hshared) as [Hflag Hsel].
    destruct (step_shared e w Hflag) as [Hflag' Hsel'].
    split; [exact Hflag' | rewrite Hsel; exact Hsel'].
Qed.

Lemma shared_view_shows_linked_horse_witness :
  let w := mkWorld (mkAppState [] true None view_details (JStr "42") true EmptyString)
             (mkSupabase scenarioHorses []) [] [] [] in
  let es := [DoFetch (fun store => inr (cavalos store)); DoAction ViewLineage;
             DoAction BackToDetails] in
  isSharedView (app w) = true
  /\ selectedHorseId (app (run es w)) = selectedHorseId (app w).
Proof.
  apply (shared_view_shows_linked_horse
           [DoFetch (fun store => inr (cavalos store)); DoAction ViewLineage;
            DoAction BackToDetails]).
  reflexivity.
Defined.

(** X10. After an add that fails, in the view of the form, what is rendered
    is the error panel and not the form; its retry, when the fetch succeeds,
    brings the form back with the collection fetched. *)
Theorem failed_add_shows_error_panel (be : Backend) (uuid : string)
    (d : NewHorseData) (w : World) (message : string)
    (select_answer : Supabase -> string + list Horse) (data : list Horse)
    (Hadd : viewMode (app w) = view_add)
    (Hfail : UploadStageFails be uuid d (supabase w) message
             \/ InsertFails be uuid d (supabase w) message)
    (Hretry : select_answer (supabase (snd (addHorse be uuid d w))) = inr data) :
  let w1 := snd (addHorse be uuid d w) in
  let w2 := snd (fetchHorses select_answer w1) in
  content (app w1) = ErrorPanel (String.append "Falha ao adicionar cavalo: " message)
  /\ content (app w2) = HorseFormView
  /\ horses (app w2) = data.
Proof.
  intros w1 w2.
  assert (Hrep : FailureReported w w1 message).
  { destruct Hfail as [Hfail|Hfail].
    - apply addHorse_upload_stage, Hfail.
    - apply addHorse_insert_stage, Hfail. }
  destruct Hrep as (_ & Herr & Hload & Hview & _ & _).
  split; [|split].
  - unfold content. rewrite Hload, Herr. reflexivity.
  - subst w2. rewrite fetchHorses_world. fold w1 in Hretry. rewrite Hretry.
    unfold content. cbn. rewrite Hview, Hadd. reflexivity.
  - subst w2. rewrite fetchHorses_world. fold w1 in Hretry. rewrite Hretry.
    reflexivity.
Qed.

Lemma failed_add_shows_error_panel_witness :
  let w1 := snd (addHorse refusingInserts "u1" (submittedData sampleForm) addWorld) in
  let w2 := snd (fetchHorses (fun store => inr (cavalos store)) w1) in
  content (app w1)
  = ErrorPanel (String.append "Falha ao adicionar cavalo: " "permission denied")
  /\ content (app w2) = HorseFormView
  /\ horses (app w2) = scenarioHorses.
Proof.
  apply (failed_add_shows_error_panel refusingInserts "u1" (submittedData sampleForm)
           addWorld "permission denied" (fun store => inr (cavalos store))
           scenarioHorses).
  - reflexivity.
  - right. apply (insert_refused_with_photo _ _ _ _ samplePhoto
                    "https://cdn/public/u1.jpg"); reflexivity.
  - reflexivity.
Defined.

(** * Further properties of the share link *)

Lemma string_of_uint_unreserved (d : Decimal.uint) :
  allUnreserved (NilEmpty.string_of_uint d) = true.
Proof. induction d; simpl; try rewrite IHd; reflexivity. Qed.

Lemma toString_number_unreserved (z : Z) :
  allUnreserved (toString (JNum z)) = true /\ toString (JNum z) <> EmptyString.
Proof.
  unfold toString, NilZero.string_of_int, NilZero.string_of_uint.
  destruct (Z.to_int z) as [d|d].
  - destruct d; try (split; [reflexivity | discriminate]);
      (split; [simpl; apply string_of_uint_unreserved | discriminate]).
  - destruct d; try (split; [reflexivity | discriminate]);
      (split; [simpl; apply string_of_uint_unreserved | discriminate]).
Qed.

Lemma startup_on_share_link (horse : Horse) (a : AppState) (s : string) :
  toString (id horse) = s -> s <> EmptyString -> allUnreserved s = true ->
  startup (location_search (shareUrl EmptyString horse)) a
  = Some (mkAppState (horses a) (loading a) (error a) view_details (JStr s)
            true (shareMessage a)).
Proof.
  intros Hid Hne Hs.
  pose (h' := mkHorse (JStr s) [] [] None [] None JNull JNull).
  destruct (share_link_round_trip_unreserved EmptyString h' a s eq_refl Hne Hs)
    as [_ Hstart].
  unfold shareUrl. rewrite Hid. rewrite (encodeURIComponent_unreserved s Hs).
  exact Hstart.
Qed.

(** X11. Following the share link of a horse whose id is a string of
    unreserved characters (a UUID, say) renders, once the collection is
    loaded with that horse in it, the details of a record with that id, as a
    shared view, and a shared view offers no way to another view. *)
Theorem share_link_opens_shared_details (horse : Horse) (s : string)
    (select_answer : Supabase -> string + list Horse) (data : list Horse)
    (w : World)
    (Hid : id horse = JStr s)
    (Hne : s <> EmptyString)
    (Hs : allUnreserved s = true)
    (Hstart : Some (app w)
              = startup (location_search (shareUrl EmptyString horse)) initialApp)
    (Hfetch : select_answer (supabase w) = inr data)
    (Hin : In horse data) :
  let a := app (snd (fetchHorses select_answer w)) in
  exists h, In h data /\ id h = JStr s
            /\ content a = HorseDetailView h true
            /\ actions a = [].
Proof.
  rewrite (startup_on_share_link horse initialApp s) in Hstart
    by (try assumption; rewrite Hid; reflexivity).
  injection Hstart as Happ.
  intros a. subst a. rewrite fetchHorses_world, Hfetch, Happ.
  cbn [app viewMode selectedHorseId isSharedView shareMessage initialApp].
  destruct (findById_of_member data horse Hin) as [h [Hfind [Hh Hidh]]].
  rewrite Hid in Hfind, Hidh.
  exists h. repeat split; try assumption.
  - unfold content.
    cbn [loading error viewMode horses selectedHorseId isSharedView].
    rewrite Hfind. reflexivity.
  - unfold actions, content.
    cbn [loading error viewMode horses selectedHorseId isSharedView].
    rewrite Hfind. reflexivity.
Qed.

Lemma share_link_opens_shared_details_witness :
  let w := mkWorld (mkAppState [] true None view_details (JStr "3f2a-77") true
                      EmptyString)
             (mkSupabase [horseA; horseUuid] []) [] [] [] in
  let a := app (snd (fetchHorses (fun store => inr (cavalos store)) w)) in
  exists h, In h [horseA; horseUuid] /\ id h = JStr "3f2a-77"
            /\ content a = HorseDetailView h true
            /\ actions a = [].
Proof.
  apply (share_link_opens_shared_details horseUuid "3f2a-77"
           (fun store => inr (cavalos store)) [horseA; horseUuid]).
  - reflexivity.
  - discriminate.
  - reflexivity.
  - reflexivity.
  - reflexivity.
  - right. left. reflexivity.
Defined.

(** X12. When the ids of the table are numbers, the share link of a horse
    does not lead back to it: the id comes back from the address as a
    string, no record has an id strictly equal to it, and the panel of a horse
    not found is rendered. *)
Theorem share_link_numeric_ids_not_found (horse : Horse) (z : Z)
    (select_answer : Supabase -> string + list Horse) (data : list Horse)
    (w : World)
    (Hid : id horse = JNum z)
    (Hstart : Some (app w)
              = startup (location_search (shareUrl EmptyString horse)) initialApp)
    (Hfetch : select_answer (supabase w) = inr data)
    (Hnum : numericIds data) :
  content (app (snd (fetchHorses select_answer w))) = NotFoundPanel.
Proof.
  destruct (toString_number_unreserved z) as [Hs Hne].
  rewrite (startup_on_share_link horse initialApp (toString (JNum z))) in Hstart
    by (try assumption; rewrite Hid; reflexivity).
  injection Hstart as Happ.
  rewrite fetchHorses_world, Hfetch, Happ.
  unfold content. cbn [app loading error viewMode horses selectedHorseId initialApp].
  change (NilZero.string_of_int (Z.to_int z)) with (toString (JNum z)).
  destruct (findById data (JStr (toString (JNum z)))) as [h|] eqn:E; [|reflexivity].
  apply findById_In in E as [Hin Heq]. destruct (Hnum h Hin) as [z' Hz'].
  congruence.
Qed.

Lemma share_link_numeric_ids_not_found_witness :
  content
    (app (snd (fetchHorses (fun store => inr (cavalos store))
                 (mkWorld (mkAppState [] true None view_details (JStr "3") true
                             EmptyString)
                    (mkSupabase scenarioHorses []) [] [] []))))
  = NotFoundPanel.
Proof.
  apply (share_link_numeric_ids_not_found horseC 3
           (fun store => inr (cavalos store)) scenarioHorses).
  - reflexivity.
  - reflexivity.
  - reflexivity.
  - intros x [<-|[<-|[<-|[]]]]; eexists; reflexivity.
Defined.

(** * Further properties of the registration path *)

Lemma publicUrlOf_nonempty (publicUrlData : option (option string)) (url : string) :
  publicUrlOf publicUrlData = Some url -> url <> EmptyString.
Proof.
  unfold publicUrlOf. destruct publicUrlData as [[u|]|]; try discriminate.
  destruct (String.eqb_spec u EmptyString); [discriminate|]. congruence.
Qed.

(** The requests an add sends, latest first, as the answers of the store
    decide them. *)
Lemma addHorse_new_requests (be : Backend) (uuid : string)
    (d : NewHorseData) (w : World) :
  requests (snd (addHorse be uuid d w))
  = match data_photoFile d with
    | None => [ReqInsert (insertRowOf d None)]
    | Some file =>
        match upload_answer be (supabase w) (filePathOf uuid file) file with
        | Some _ => [ReqUpload (filePathOf uuid file) file]
        | None =>
            match publicUrlOf (publicUrl_answer be (withBlob (supabase w) uuid file)
                                 (filePathOf uuid file)) with
            | None => [ReqGetPublicUrl (filePathOf uuid file);
                       ReqUpload (filePathOf uuid file) file]
            | Some url => [ReqInsert (insertRowOf d (Some url));
                           ReqGetPublicUrl (filePathOf uuid file);
                           ReqUpload (filePathOf uuid file) file]
            end
        end
    end ++ requests w.
Proof.
  run_addHorse. destruct (data_photoFile d) as [file|]; run_addHorse.
  - destruct (upload_answer be (supabase w) (filePathOf uuid file) file);
      run_addHorse; [reflexivity|].
    destruct (publicUrlOf _) as [url|]; run_addHorse; [|reflexivity].
    destruct (insert_answer be _ _); reflexivity.
  - destruct (insert_answer be _ _); reflexivity.
Qed.

(** X13. The answers of the store decide what [addHorse] sends, and in what
    order. Without a photo: one insert, with no photo URL. With a photo: the
    upload; when the upload is refused, nothing more; when it is accepted,
    the look-up of the public URL; when no URL comes back, nothing more; when
    one does, the insert, with that URL in it. A URL that comes back is not
    empty. (The list has the latest request first.) *)
Theorem addHorse_request_sequence (be : Backend) (uuid : string)
    (d : NewHorseData) (w : World) :
  requests (snd (addHorse be uuid d w))
  = match data_photoFile d with
    | None => [ReqInsert (insertRowOf d None)]
    | Some file =>
        match upload_answer be (supabase w) (filePathOf uuid file) file with
        | Some _ => [ReqUpload (filePathOf uuid file) file]
        | None =>
            match publicUrlOf (publicUrl_answer be (withBlob (supabase w) uuid file)
                                 (filePathOf uuid file)) with
            | None => [ReqGetPublicUrl (filePathOf uuid file);
                       ReqUpload (filePathOf uuid file) file]
            | Some url => [ReqInsert (insertRowOf d (Some url));
                           ReqGetPublicUrl (filePathOf uuid file);
                           ReqUpload (filePathOf uuid file) file]
            end
        end
    end ++ requests w
  /\ forall publicUrlData,
       match publicUrlOf publicUrlData with
       | Some url => publicUrlData = Some (Some url) /\ url <> EmptyString
       | None => True
       end.
Proof.
  split; [apply addHorse_new_requests|].
  intros publicUrlData. destruct (publicUrlOf publicUrlData) as [url|] eqn:H; [|exact I].
  split; [|eapply publicUrlOf_nonempty, H].
  unfold publicUrlOf in H. destruct publicUrlData as [[u|]|]; try discriminate.
  destruct (String.eqb u EmptyString); [discriminate|]. congruence.
Qed.

(** X14. [addHorse] never throws and always ends with [loading] off, and
    there are two outcomes only: the record the store created is appended to
    the collection and to the table, the view is the list, no error is set
    and the success is alerted; or the collection, the table and the view are
    unchanged, an error is set and alerted. *)
Theorem addHorse_two_outcomes (be : Backend) (uuid : string)
    (d : NewHorseData) (w : World) :
  let w' := snd (addHorse be uuid d w) in
  fst (addHorse be uuid d w) = inr tt
  /\ loading (app w') = false
  /\ ((exists created,
          horses (app w') = horses (app w) ++ [created]
          /\ cavalos (supabase w') = cavalos (supabase w) ++ [created]
          /\ viewMode (app w') = view_list
          /\ error (app w') = None
          /\ alerts w' = "Cavalo adicionado com sucesso!" :: alerts w)
      \/ (exists message,
            horses (app w') = horses (app w)
            /\ cavalos (supabase w') = cavalos (supabase w)
            /\ viewMode (app w') = viewMode (app w)
            /\ error (app w') = Some (String.append "Falha ao adicionar cavalo: " message)
            /\ alerts w' = String.append "Falha ao adicionar cavalo: " message
                           :: alerts w)).
Proof.
  run_addHorse. destruct (data_photoFile d) as [file|]; run_addHorse.
  - destruct (upload_answer be (supabase w) (filePathOf uuid file) file) as [e|];
      run_addHorse.
    + repeat split. right. exists e. repeat split.
    + destruct (publicUrlOf _) as [url|]; run_addHorse.
      * destruct (insert_answer be _ _) as [e|created]; run_addHorse.
        -- repeat split. right. exists e. repeat split.
        -- repeat split. left. exists created. repeat split.
      * repeat split. right. eexists. repeat split.
  - destruct (insert_answer be _ _) as [e|created]; run_addHorse.
    + repeat split. right. exists e. repeat split.
    + repeat split. left. exists created. repeat split.
Qed.

(** X15. A photo that was uploaded stays in the bucket when the add fails
    after the upload (no public URL, or the insert refused): the table gets
    no record and the blob is not removed. *)
Theorem failed_add_leaves_blob (be : Backend) (uuid : string)
    (d : NewHorseData) (file : PhotoFile) (w : World) (message : string)
    (Hfile : data_photoFile d = Some file)
    (Hup : upload_answer be (supabase w) (filePathOf uuid file) file = None)
    (Hfail : UploadStageFails be uuid d (supabase w) message
             \/ InsertFails be uuid d (supabase w) message) :
  let w' := snd (addHorse be uuid d w) in
  fotos_cavalos (supabase w')
  = (filePathOf uuid file, file) :: fotos_cavalos (supabase w)
  /\ cavalos (supabase w') = cavalos (supabase w)
  /\ horses (app w') = horses (app w).
Proof.
  assert (Hrep : FailureReported w (snd (addHorse be uuid d w)) message).
  { destruct Hfail as [Hfail|Hfail].
    - apply addHorse_upload_stage, Hfail.
    - apply addHorse_insert_stage, Hfail. }
  destruct Hrep as (_ & _ & _ & _ & Hhorses & Htable).
  intros w'. split; [|split; assumption]. subst w'.
  run_addHorse. rewrite Hfile. run_addHorse. rewrite Hup. run_addHorse.
  destruct (publicUrlOf _); run_addHorse; [|reflexivity].
  destruct (insert_answer be _ _); reflexivity.
Qed.

Lemma failed_add_leaves_blob_witness :
  let w' := snd (addHorse refusingInserts "u1" (submittedData sampleForm) addWorld) in
  fotos_cavalos (supabase w')
  = (filePathOf "u1" samplePhoto, samplePhoto) :: fotos_cavalos (supabase addWorld)
  /\ cavalos (supabase w') = cavalos (supabase addWorld)
  /\ horses (app w') = horses (app addWorld).
Proof.
  apply (failed_add_leaves_blob refusingInserts "u1" (submittedData sampleForm)
           samplePhoto addWorld "permission denied").
  - reflexivity.
  - reflexivity.
  - right. apply (insert_refused_with_photo _ _ _ _ samplePhoto
                    "https://cdn/public/u1.jpg"); reflexivity.
Defined.

Lemma toUpperCodePoint_nonempty (c : N) : toUpperCodePoint c <> [].
Proof.
  unfold toUpperCodePoint.
  repeat match goal with
         | |- context [if ?x then _ else _] => destruct x
         end; discriminate.
Qed.

Lemma capitalizeEachWord_nonempty (s : ustring) :
  s <> [] -> capitalizeEachWord s <> [].
Proof.
  intros Hs. rewrite capitalizeEachWord_spec. unfold spec_normalize.
  destruct s as [|c s]; [congruence|].
  cbn [toLowerCase map spec_capitalizeSegments].
  destruct (true && isLetter (toLowerCodePoint c)).
  - pose proof (toUpperCodePoint_nonempty (toLowerCodePoint c)) as Hu.
    destruct (toUpperCodePoint (toLowerCodePoint c)); [congruence | discriminate].
  - discriminate.
Qed.

Lemma isEmptyText_false (s : ustring) : isEmptyText s = false -> s <> [].
Proof. destruct s; [discriminate | intros _; discriminate]. Qed.

(** X16. The form never sends a record with an empty name, breed or sex:
    every insert a call of [handleSubmit] sends carries three texts that are
    not empty, whatever was typed and whatever the store answers (an
    incomplete form sends nothing, and the normalisation of a text that is
    not empty is not empty). *)
Theorem submitted_records_are_named (be : Backend) (uuid : string)
    (f : FormState) (w : World) (row : InsertRow)
    (Hsent : In (ReqInsert row) (requests (snd (handleSubmit (addHorse be uuid) f w)))) :
  In (ReqInsert row) (requests w)
  \/ (row_nome row <> [] /\ row_raca row <> [] /\ row_sexo row <> []).
Proof.
  destruct (requiredFilled f) eqn:Efilled.
  - rewrite (handleSubmit_filled _ _ _ Efilled) in Hsent. cbn [snd] in Hsent.
    apply addHorse_inserts in Hsent as [Hin|[photoUrl ->]]; [left; exact Hin|].
    right. unfold requiredFilled in Efilled. apply negb_true_iff in Efilled.
    apply orb_false_iff in Efilled as [Efilled Hsex].
    apply orb_false_iff in Efilled as [Efilled Hage].
    apply orb_false_iff in Efilled as [Hname Hbreed].
    cbn [insertRowOf submittedData row_nome row_raca row_sexo data_name data_breed
         data_sex].
    repeat split; apply capitalizeEachWord_nonempty, isEmptyText_false; assumption.
  - destruct (handleSubmit_not_filled (addHorse be uuid) f w Efilled) as [_ Hreq].
    rewrite Hreq in Hsent. left. exact Hsent.
Qed.

Lemma submitted_records_are_named_witness :
  In (ReqInsert (insertRowOf (submittedData sampleFormNoPhoto) None)) (requests addWorld)
  \/ (row_nome (insertRowOf (submittedData sampleFormNoPhoto) None) <> []
      /\ row_raca (insertRowOf (submittedData sampleFormNoPhoto) None) <> []
      /\ row_sexo (insertRowOf (submittedData sampleFormNoPhoto) None) <> []).
Proof.
  apply (submitted_records_are_named acceptingAll "u1" sampleFormNoPhoto addWorld).
  vm_compute. left. reflexivity.
Defined.

Lemma addHorse_uploads (be : Backend) (uuid : string) (d : NewHorseData)
    (w : World) (path : string) (p : PhotoFile) :
  In (ReqUpload path p) (requests (snd (addHorse be uuid d w))) ->
  In (ReqUpload path p) (requests w) \/ data_photoFile d = Some p.
Proof.
  rewrite addHorse_new_requests.
  intros Hin. apply in_app_or in Hin as [Hin|Hin]; [|left; exact Hin].
  right. destruct (data_photoFile d) as [file|].
  - destruct (upload_answer be (supabase w) (filePathOf uuid file) file);
      [|destruct (publicUrlOf _)]; simpl in Hin;
      repeat (destruct Hin as [Hin|Hin]; try discriminate Hin;
              try (injection Hin as _ <-; reflexivity)); contradiction.
  - destruct Hin as [Hin|[]]. discriminate.
Qed.

(** X17. Only images are uploaded: whatever file is chosen with
    [handleFileChange], every upload the submission that follows sends is of
    a file whose type starts with [image/]. *)
Theorem only_images_uploaded (file : option PhotoFile) (readerResult : option string)
    (f : FormState) (w : World) (be : Backend) (uuid : string)
    (path : string) (p : PhotoFile) :
  let chosen := handleFileChange file readerResult f w in
  let w' := snd (handleSubmit (addHorse be uuid) (fst chosen) (snd chosen)) in
  In (ReqUpload path p) (requests w') ->
  In (ReqUpload path p) (requests w) \/ startsWith "image/" (file_type p) = true.
Proof.
  intros chosen w' Hin.
  assert (Hsel : match form_selectedFile (fst chosen) with
                 | Some photo => startsWith "image/" (file_type photo) = true
                 | None => True
                 end).
  { subst chosen. unfold handleFileChange. destruct file as [photo|]; [|exact I].
    destruct (startsWith "image/" (file_type photo)) eqn:E; [exact E | exact I]. }
  assert (Hreq : requests (snd chosen) = requests w).
  { subst chosen. unfold handleFileChange. destruct file as [photo|]; [|reflexivity].
    destruct (startsWith "image/" (file_type photo)); reflexivity. }
  subst w'. destruct (requiredFilled (fst chosen)) eqn:Efilled.
  - rewrite (handleSubmit_filled _ _ _ Efilled) in Hin. cbn [snd] in Hin.
    apply addHorse_uploads in Hin as [Hin|Hp].
    + left. rewrite <- Hreq. exact Hin.
    + right. cbn [submittedData data_photoFile] in Hp. rewrite Hp in Hsel. exact Hsel.
  - destruct (handleSubmit_not_filled (addHorse be uuid) (fst chosen) (snd chosen)
                Efilled) as [_ Hsame].
    left. rewrite <- Hreq, <- Hsame. exact Hin.
Qed.

Lemma only_images_uploaded_witness :
  let chosen := handleFileChange (Some samplePhoto) None sampleFormNoPhoto addWorld in
  let w' := snd (handleSubmit (addHorse acceptingAll "u1") (fst chosen) (snd chosen)) in
  In (ReqUpload "public/u1.jpg" samplePhoto) (requests addWorld)
  \/ startsWith "image/" (file_type samplePhoto) = true.
Proof.
  apply (only_images_uploaded (Some samplePhoto) None sampleFormNoPhoto addWorld
           acceptingAll "u1" "public/u1.jpg" samplePhoto).
  vm_compute. right. right. left. reflexivity.
Defined.

Lemma splitOn_nonempty (sep : ascii) (s : string) : splitOn sep s <> [].
Proof.
  destruct s as [|c s]; simpl; [discriminate|].
  destruct (Ascii.eqb c sep); [discriminate|].
  destruct (splitOn sep s); discriminate.
Qed.

Lemma splitOn_pieces (sep : ascii) (s piece : string) :
  In piece (splitOn sep s) -> hasChar sep piece = false.
Proof.
  revert piece. induction s as [|c s IH]; intros piece Hin; simpl in Hin.
  - destruct Hin as [<-|[]]. reflexivity.
  - destruct (Ascii.eqb c sep) eqn:E.
    + destruct Hin as [<-|Hin]; [reflexivity | apply IH, Hin].
    + destruct (splitOn sep s) as [|x xs] eqn:Es.
      * destruct Hin as [<-|[]]. simpl. rewrite E. reflexivity.
      * destruct Hin as [<-|Hin].
        -- simpl. rewrite E. apply IH. left. reflexivity.
        -- apply IH. right. exact Hin.
Qed.

Lemma last_In {A : Type} (l : list A) (d : A) : l <> [] -> In (last l d) l.
Proof.
  induction l as [|x l IH]; [congruence|]. intros _.
  destruct l as [|y l']; [left; reflexivity|].
  right. apply IH. discriminate.
Qed.

Lemma splitOn_no_sep (sep : ascii) (s : string) :
  hasChar sep s = false -> splitOn sep s = [s].
Proof.
  induction s as [|c s IH]; simpl; [reflexivity|].
  intros H. apply orb_false_iff in H as [Hc Hs]. rewrite Hc, (IH Hs). reflexivity.
Qed.

Lemma last_splitOn_append (sep : ascii) (stem ext : string) :
  last (splitOn sep (String.append stem (String sep ext))) EmptyString
  = last (splitOn sep ext) EmptyString.
Proof.
  induction stem as [|c stem IH]; simpl.
  - rewrite Ascii.eqb_refl. destruct (splitOn sep ext) eqn:E; [|reflexivity].
    exfalso. exact (splitOn_nonempty sep ext E).
  - destruct (Ascii.eqb c sep).
    + destruct (splitOn sep (String.append stem (String sep ext))) eqn:E;
        [exfalso; exact (splitOn_nonempty _ _ E)|]. exact IH.
    + destruct (splitOn sep (String.append stem (String sep ext))) as [|x xs] eqn:E;
        [exfalso; exact (splitOn_nonempty _ _ E)|].
      rewrite <- IH. destruct xs; [|reflexivity].
      simpl in IH |- *. exfalso.
      assert (Hx : hasChar sep x = false)
        by (apply (splitOn_pieces sep (String.append stem (String sep ext)));
            rewrite E; left; reflexivity).
      assert (Hlen : (2 <= length (splitOn sep (String.append stem (String sep ext))))%nat).
      { clear. induction stem as [|c stem IH]; simpl.
        - rewrite Ascii.eqb_refl. simpl.
          pose proof (splitOn_nonempty sep ext). destruct (splitOn sep ext);
            [congruence | simpl; lia].
        - destruct (Ascii.eqb c sep); [simpl; lia|].
          destruct (splitOn sep (String.append stem (String sep ext))); simpl in *; lia. }
      rewrite E in Hlen. simpl in Hlen. lia.
Qed.

(** X18. The extension [addHorse] keeps is what follows the last dot of the
    file name: it has no dot in it, it is [ext] for a name [stem.ext] with no
    dot in [ext], and it is the whole name when the name has no dot. *)
Theorem fileExtension_after_last_dot (name stem ext : string)
    (Hext : hasChar "." ext = false) :
  hasChar "." (fileExtension name) = false
  /\ fileExtension (String.append stem (String "." ext)) = ext
  /\ fileExtension ext = ext.
Proof.
  unfold fileExtension. split; [|split].
  - apply (splitOn_pieces "." name). apply last_In, splitOn_nonempty.
  - rewrite last_splitOn_append, (splitOn_no_sep "." ext Hext). reflexivity.
  - rewrite (splitOn_no_sep "." ext Hext). reflexivity.
Qed.

Lemma fileExtension_after_last_dot_witness :
  hasChar "." (fileExtension "zeus.final.jpg") = false
  /\ fileExtension (String.append "zeus.final" (String "." "jpg")) = "jpg"
  /\ fileExtension "jpg" = "jpg".
Proof.
  apply (fileExtension_after_last_dot "zeus.final.jpg" "zeus.final" "jpg").
  reflexivity.
Defined.

(** * Further properties of the details page and of the text *)

(** X19. With every record named, the note on relatives registered by id
    without details is hidden exactly when the tree of the horse, over two
    generations or more, has one child for each parent reference that is
    present. *)
Theorem note_hidden_iff_tree_complete (allHorses : list Horse) (h : Horse)
    (maxDepth : Z) (t : TreeNode)
    (Hnamed : forall x, In x allHorses -> nome x <> [])
    (Hd : 2 <= maxDepth)
    (Hbuild : buildD3AncestryData (Some h) allHorses maxDepth 0 = Some t) :
  missingParentNote allHorses h = false
  <-> length (children t) = presentReferences h.
Proof.
  rewrite (build_generations allHorses maxDepth (Z.to_nat (maxDepth - 0 - 1)) h 0)
    in Hbuild by (try reflexivity; lia).
  injection Hbuild as <-.
  destruct (Z.to_nat (maxDepth - 0 - 1)) as [|n] eqn:En; [lia|].
  cbn [generations children]. rewrite length_map.
  unfold parentsOf, missingParentNote, presentReferences, lookupParent, getParentName.
  assert (Hname : forall ref,
             nameShown match findById allHorses ref with
                       | Some parent => Some (nome parent)
                       | None => None
                       end
             = match findById allHorses ref with Some _ => true | None => false end).
  { intros ref. destruct (findById allHorses ref) as [x|] eqn:Hx; [|reflexivity].
    apply findById_In in Hx as [Hin _].
    specialize (Hnamed x Hin). simpl. destruct (nome x); [congruence | reflexivity]. }
  rewrite !Hname.
  destruct (truthy (pai_id h)), (truthy (mae_id h)),
    (findById allHorses (pai_id h)), (findById allHorses (mae_id h));
    simpl; split; intros H; try reflexivity; try discriminate; try lia.
Qed.

Lemma note_hidden_iff_tree_complete_witness :
  missingParentNote (orphanRef :: scenarioHorses) orphanRef = false
  <-> length (children (generations (orphanRef :: scenarioHorses) 4 orphanRef))
      = presentReferences orphanRef.
Proof.
  apply (note_hidden_iff_tree_complete (orphanRef :: scenarioHorses) orphanRef 5).
  - intros x [<-|[<-|[<-|[<-|[]]]]]; discriminate.
  - lia.
  - reflexivity.
Defined.

Lemma toLowerCodePoint_idempotent (c : N) :
  toLowerCodePoint (toLowerCodePoint c) = toLowerCodePoint c.
Proof.
  destruct (N.lt_ge_cases c 1024) as [Hsmall|Hbig].
  - assert (Hall : forallb (fun x => (toLowerCodePoint (toLowerCodePoint x)
                                      =? toLowerCodePoint x)%N)
                     (map N.of_nat (seq 0 1024)) = true) by (vm_compute; reflexivity).
    rewrite forallb_forall in Hall. apply N.eqb_eq, Hall.
    rewrite <- (N2Nat.id c). apply in_map, in_seq. lia.
  - assert (Hid : toLowerCodePoint c = c).
    { unfold toLowerCodePoint, inRange.
      repeat match goal with
             | |- context [(?a <=? ?b)%N] => destruct (N.leb_spec a b); try lia
             | |- context [(?a =? ?b)%N] => destruct (N.eqb_spec a b); try lia
             end; reflexivity. }
    rewrite !Hid. reflexivity.
Qed.

(** X20. The case the text is typed in does not matter to what is stored:
    [capitalizeEachWord] gives the same for a text and for its lower case. *)
Theorem capitalizeEachWord_ignores_case (s : ustring) :
  capitalizeEachWord (toLowerCase s) = capitalizeEachWord s.
Proof.
  destruct s as [|c s]; [reflexivity|].
  unfold capitalizeEachWord. cbn [toLowerCase map]. f_equal.
  f_equal; [apply toLowerCodePoint_idempotent|].
  rewrite map_map. apply map_ext. intros x. apply toLowerCodePoint_idempotent.
Qed.

Lemma ustring_eqb_eq (a b : ustring) : ustring_eqb a b = true <-> a = b.
Proof.
  revert b. induction a as [|x a IH]; intros [|y b]; simpl; split; intros H;
    try discriminate; try reflexivity.
  - apply andb_true_iff in H as [Hx Ha]. apply N.eqb_eq in Hx. apply IH in Ha.
    congruence.
  - injection H as -> ->. rewrite N.eqb_refl. apply IH. reflexivity.
Qed.

Lemma addHorse_created (be : Backend) (uuid : string) (d : NewHorseData)
    (w : World) (created : Horse) :
  horses (app (snd (addHorse be uuid d w))) = horses (app w) ++ [created] ->
  exists store photoUrl,
    insert_answer be store (insertRowOf d photoUrl) = inr created.
Proof.
  assert (Hno : horses (app w) <> horses (app w) ++ [created]).
  { intros H. apply (f_equal (@length Horse)) in H. rewrite length_app in H.
    simpl in H. lia. }
  run_addHorse. destruct (data_photoFile d) as [file|]; run_addHorse.
  - destruct (upload_answer be (supabase w) (filePathOf uuid file) file);
      run_addHorse; [intros H; contradiction|].
    destruct (publicUrlOf _) as [url|]; run_addHorse; [|intros H; contradiction].
    destruct (insert_answer be _ _) as [e|c] eqn:E; run_addHorse;
      [intros H; contradiction|].
    intros H. apply app_inj_tail in H as [_ ->]. eexists _, _. exact E.
  - destruct (insert_answer be _ _) as [e|c] eqn:E; run_addHorse;
      [intros H; contradiction|].
    intros H. apply app_inj_tail in H as [_ ->]. eexists _, _. exact E.
Qed.

(** X21. A horse added through the form with one of the two values of the
    sex field is offered afterwards as a parent of the matching role only:
    as father exactly when the value was ['Macho'], as mother exactly when it
    was ['Fêmea'], the store giving back the sex it was given. The
    normalisation of the text leaves both values as they are. *)
Theorem added_horse_offered_as_parent (be : Backend) (uuid : string)
    (f : FormState) (w : World) (created : Horse)
    (Hecho : forall store row c, insert_answer be store row = inr c ->
                                 sexo c = row_sexo row)
    (Hsex : form_sex f = macho \/ form_sex f = femea)
    (Hfilled : requiredFilled f = true)
    (Hadded : horses (app (snd (handleSubmit (addHorse be uuid) f w)))
              = horses (app w) ++ [created]) :
  let hs := horses (app (snd (handleSubmit (addHorse be uuid) f w))) in
  (In created (fatherCandidates hs) <-> form_sex f = macho)
  /\ (In created (motherCandidates hs) <-> form_sex f = femea).
Proof.
  intros hs. subst hs. rewrite Hadded.
  rewrite (handleSubmit_filled _ _ _ Hfilled) in Hadded. cbn [snd] in Hadded.
  destruct (addHorse_created be uuid (submittedData f) w created Hadded)
    as [store [photoUrl Hins]].
  apply Hecho in Hins. cbn in Hins.
  assert (Hnorm : sexo created = form_sex f).
  { rewrite Hins. destruct Hsex as [->| ->]; reflexivity. }
  unfold fatherCandidates, motherCandidates. rewrite !filter_In, Hnorm.
  split; split.
  - intros [_ H]. apply ustring_eqb_eq, H.
  - intros H. split; [apply in_or_app; right; left; reflexivity|].
    apply ustring_eqb_eq, H.
  - intros [_ H]. apply ustring_eqb_eq, H.
  - intros H. split; [apply in_or_app; right; left; reflexivity|].
    apply ustring_eqb_eq, H.
Qed.

Lemma added_horse_offered_as_parent_witness :
  let hs := horses (app (snd (handleSubmit (addHorse acceptingAll "u1")
                                sampleFormNoPhoto addWorld))) in
  (In (createdOf (insertRowOf (submittedData sampleFormNoPhoto) None))
      (fatherCandidates hs) <-> form_sex sampleFormNoPhoto = macho)
  /\ (In (createdOf (insertRowOf (submittedData sampleFormNoPhoto) None))
         (motherCandidates hs) <-> form_sex sampleFormNoPhoto = femea).
Proof.
  apply (added_horse_offered_as_parent acceptingAll "u1" sampleFormNoPhoto addWorld).
  - intros store row c H. injection H as <-. reflexivity.
  - left. reflexivity.
  - reflexivity.
  - reflexivity.
Defined.

(** X22. Going to a view and back restores the state: from the details to
    the tree and back, and from the list to the form and back by its cancel
    button. *)
Theorem navigation_round_trips (a : AppState) :
  (viewMode a = view_details -> act BackToDetails (act ViewLineage a) = a)
  /\ (viewMode a = view_list -> act CancelAdd (act AddHorseClicked a) = a).
Proof.
  destruct a as [hs l e v sel sh msg]. cbn. split; intros ->; reflexivity.
Qed.

Lemma navigation_round_trips_witness :
  (viewMode (loadedApp scenarioHorses) = view_list ->
   act CancelAdd (act AddHorseClicked (loadedApp scenarioHorses))
   = loadedApp scenarioHorses)
  /\ act BackToDetails
       (act ViewLineage (act (SelectHorse (JNum 3)) (loadedApp scenarioHorses)))
     = act (SelectHorse (JNum 3)) (loadedApp scenarioHorses).
Proof.
  split.
  - apply (navigation_round_trips (loadedApp scenarioHorses)).
  - apply (navigation_round_trips (act (SelectHorse (JNum 3)) (loadedApp scenarioHorses))).
    reflexivity.
Defined.
